(** * Lotto Max statistics engine (app.py): shallow embedding and properties

    The analyzers of app.py are pure functions of a list of draws.  They are
    embedded here as Rocq functions:

    - a draw is the dict built by [parse_html_data]: a date string
      ("%Y-%m-%d"), the list of drawn numbers in page order, and the year;
    - Python ints are [Z]; the results of true division [/] are exact
      rationals [Q] (the source computes them in binary floating point, whose
      rounding is left out: a statement on such a value is a statement on the
      exact quotient);
    - a [dict] / [Counter] / [defaultdict] is an association list in insertion
      order, which is the iteration order Python guarantees and the row order
      of the data frames built from [keys()] and [values()];
    - a pandas data frame is the list of its rows; [sort_values] orders them
      by the key column, and the order it gives to rows of equal key is not
      relied on for the tables of the source;
    - operations that can raise ([min]/[max] of an empty sequence, division by
      zero, [itertools.combinations] with a size it refuses) live in an error
      monad. *)

From Stdlib Require Import ZArith QArith List String Ascii Bool Lia.
From Stdlib Require Import Permutation Sorted DecimalString DecimalZ DecimalPos.
Import ListNotations.

Open Scope string_scope.
Open Scope list_scope.
Open Scope Z_scope.

(** ** Python primitives *)

Inductive exn : Type :=
| ValueError (msg : string)
| ZeroDivisionError (msg : string)
| OverflowError (msg : string)
| MemoryError.

Inductive result (A : Type) : Type :=
| Ok (a : A)
| Raise (e : exn).

Arguments Ok {A} a.
Arguments Raise {A} e.

Definition bind {A B : Type} (m : result A) (f : A -> result B) : result B :=
  match m with
  | Ok a => f a
  | Raise e => Raise e
  end.

Notation "x <- m ;; k" := (bind m (fun x => k))
  (at level 61, m at next level, right associativity).

Fixpoint mapM {A B : Type} (f : A -> result B) (l : list A) : result (list B) :=
  match l with
  | [] => Ok []
  | x :: t => y <- f x ;; ys <- mapM f t ;; Ok (y :: ys)
  end.

(** [str(n)] for an int. *)
Definition py_str_int (n : Z) : string := NilZero.string_of_int (Z.to_int n).

(** [str(t)] for a tuple of ints: "()", "(1,)", "(1, 2)". *)
Definition py_str_tuple (t : list Z) : string :=
  match t with
  | [] => "()"
  | [x] => ("(" ++ py_str_int x ++ ",)")%string
  | _ => ("(" ++ String.concat ", " (map py_str_int t) ++ ")")%string
  end.

(** [sum(l)] and [len(l)]. *)
Definition py_sum (l : list Z) : Z := fold_left Z.add l 0.
Definition len {A : Type} (l : list A) : Z := Z.of_nat (List.length l).

(** [min(l)], [max(l)]: ValueError on an empty sequence. *)
Definition py_min (l : list Z) : result Z :=
  match l with
  | [] => Raise (ValueError "min() arg is an empty sequence")
  | x :: t => Ok (fold_left Z.min t x)
  end.

Definition py_max (l : list Z) : result Z :=
  match l with
  | [] => Raise (ValueError "max() arg is an empty sequence")
  | x :: t => Ok (fold_left Z.max t x)
  end.

(** [a / b] on ints: true division, ZeroDivisionError when [b] is 0. *)
Definition py_truediv (a b : Z) : result Q :=
  if b =? 0 then Raise (ZeroDivisionError "division by zero")
  else Ok (inject_Z a / inject_Z b)%Q.

(** [sorted(l, key=key)]: a stable sort.  Written as insertion from the right,
    an element going in front of the first element whose key is not smaller,
    so that elements with equal keys keep their input order. *)
Fixpoint insert_by {A K : Type} (leb : K -> K -> bool) (key : A -> K)
    (x : A) (l : list A) : list A :=
  match l with
  | [] => [x]
  | y :: t => if leb (key x) (key y) then x :: y :: t
              else y :: insert_by leb key x t
  end.

Definition sorted_by {A K : Type} (leb : K -> K -> bool) (key : A -> K)
    (l : list A) : list A :=
  fold_right (insert_by leb key) [] l.

Definition sorted (l : list Z) : list Z := sorted_by Z.leb (fun x => x) l.

(** Tuples [(k, v)] of ints compare lexicographically. *)
Definition pair_leb (p q : Z * Z) : bool :=
  (fst p <? fst q) || ((fst p =? fst q) && (snd p <=? snd q)).

Definition sorted_items (items : list (Z * Z)) : list (Z * Z) :=
  sorted_by pair_leb (fun p => p) items.

(** [Counter]: [c[k] += 1] adds one to an existing key in place and appends a
    new key at the end. *)
Fixpoint counter_incr {K : Type} (eqb : K -> K -> bool) (k : K)
    (c : list (K * Z)) : list (K * Z) :=
  match c with
  | [] => [(k, 1)]
  | (k', n) :: t => if eqb k k' then (k', n + 1) :: t
                    else (k', n) :: counter_incr eqb k t
  end.

Definition counter_update {K : Type} (eqb : K -> K -> bool)
    (c : list (K * Z)) (l : list K) : list (K * Z) :=
  fold_left (fun acc k => counter_incr eqb k acc) l c.

Definition Counter {K : Type} (eqb : K -> K -> bool) (l : list K)
  : list (K * Z) :=
  counter_update eqb [] l.

(** Tuples of ints are compared element by element. *)
Fixpoint tuple_eqb (s t : list Z) : bool :=
  match s, t with
  | [], [] => true
  | x :: s', y :: t' => (x =? y) && tuple_eqb s' t'
  | _, _ => false
  end.

(** [itertools.combinations(pool, r)]: the r-length subsequences of [pool],
    in lexicographic order of positions. *)
Fixpoint combos {A : Type} (pool : list A) (r : nat) {struct pool}
  : list (list A) :=
  match r with
  | O => [[]]
  | S r' =>
      match pool with
      | [] => []
      | x :: t => map (cons x) (combos t r') ++ combos t (S r')
      end
  end.

(** The largest C [Py_ssize_t] (CPython on a 64-bit machine), and a size up to
    which the buffer of [r] indices that [combinations] allocates before it
    yields anything (8 bytes per index, 8 MB here) is taken to fit in memory
    on any machine that runs the program. *)
Definition PY_SSIZE_T_MAX : Z := 2 ^ 63 - 1.
Definition INDEX_ALLOC_SAFE : Z := 1000000.

(** The call itself, as CPython makes it: [r] is converted to a
    [Py_ssize_t] (OverflowError outside its range), a negative [r] is a
    ValueError, and the buffer of [r] indices is allocated, which is refused
    with MemoryError for more than [PY_SSIZE_T_MAX / 8] indices whatever the
    machine.  Between the sizes that fit in memory and [PY_SSIZE_T_MAX / 8]
    the allocation fails or not with the free memory of the machine; the
    model lets it succeed there, and every statement below about a returned
    table is restricted to sizes up to [INDEX_ALLOC_SAFE]. *)
Definition itertools_combinations (pool : list Z) (r : Z)
  : result (list (list Z)) :=
  if (r <? - PY_SSIZE_T_MAX - 1) || (PY_SSIZE_T_MAX <? r) then
    Raise (OverflowError "Python int too large to convert to C ssize_t")
  else if r <? 0 then Raise (ValueError "r must be non-negative")
  else if PY_SSIZE_T_MAX / 8 <? r then Raise MemoryError
  else Ok (combos pool (Z.to_nat r)).

(** [df.sort_values(by=key, ascending=...)]: pandas sorts the key column with
    an argsort and takes the rows in that order; for a descending sort it
    reverses the column, sorts ascending and reverses the result.  The source
    leaves the sort kind at the default, quicksort, which promises no
    particular order among rows of equal key.  The model takes the order that
    a stable argsort gives; the statements on the rankings of the source speak
    of the rows of a sorted frame and of their order by key, and leave the
    order among rows of equal key open. *)
Definition sort_values {A K : Type} (leb : K -> K -> bool) (key : A -> K)
    (ascending : bool) (rows : list A) : list A :=
  if ascending then sorted_by leb key rows
  else rev (sorted_by leb key (rev rows)).

(** [df.head(n)]. *)
Definition head {A : Type} (n : nat) (rows : list A) : list A := firstn n rows.

(** ** Data model *)

Record Draw : Type := mkDraw {
  date : string;
  numbers : list Z;
  year : Z
}.

(** A row of the frequency frame: columns "number" and "frequency". *)
Record FreqRow : Type := mkFreqRow {
  number : Z;
  frequency : Z
}.

Record FreqResult : Type := mkFreqResult {
  main : list FreqRow
}.

(** A row of the combination frame: columns "combination" and "frequency". *)
Record ComboRow : Type := mkComboRow {
  combination : string;
  combo_frequency : Z
}.

(** A row of the copied frequency frame with the two added columns. *)
Record ScoredRow : Type := mkScoredRow {
  base : FreqRow;
  expected : Q;
  deviation : Q
}.

Record HotCold : Type := mkHotCold {
  period : string;
  hot : list ScoredRow;
  cold : list ScoredRow
}.

(** The values stored in the [stats] dict. *)
Inductive StatValue : Type :=
| SFloat (q : Q)
| SInt (n : Z)
| SDict (d : list (string * Z)).

Record GapRecord : Type := mkGapRecord {
  avg_gap : Q;
  max_gap : Z;
  current_gap : option Z
}.

Record Patterns : Type := mkPatterns {
  number_gaps : list (Z * GapRecord)
}.

(** ** The analyzers *)

(** [analyze_frequency]: a flat tally of every number of every draw, as a
    frame sorted by frequency, descending. *)
Definition analyze_frequency (draws : list Draw) : FreqResult :=
  let main_numbers := flat_map numbers draws in
  let main_freq := Counter Z.eqb main_numbers in
  let main_df :=
    sort_values Z.leb frequency false
      (map (fun kv => mkFreqRow (fst kv) (snd kv)) main_freq) in
  mkFreqResult main_df.

(** The loop of [analyze_combinations]: [combinations_count] is threaded
    through the draws. *)
Fixpoint count_combinations (draws : list Draw) (combination_size : Z)
    (combinations_count : list (list Z * Z)) : result (list (list Z * Z)) :=
  match draws with
  | [] => Ok combinations_count
  | draw :: rest =>
      cs <- itertools_combinations (sorted (numbers draw)) combination_size ;;
      count_combinations rest combination_size
        (counter_update tuple_eqb combinations_count cs)
  end.

Definition analyze_combinations (draws : list Draw) (combination_size : Z)
  : result (list ComboRow) :=
  combinations_count <- count_combinations draws combination_size [] ;;
  Ok (sort_values Z.leb combo_frequency false
        (map (fun kv => mkComboRow (py_str_tuple (fst kv)) (snd kv))
             combinations_count)).

(** [draws_by_year[year].append(draw)] on a [defaultdict(list)]. *)
Fixpoint group_append (y : Z) (draw : Draw) (g : list (Z * list Draw))
  : list (Z * list Draw) :=
  match g with
  | [] => [(y, [draw])]
  | (y', ds) :: t => if y =? y' then (y', ds ++ [draw]) :: t
                     else (y', ds) :: group_append y draw t
  end.

Definition draws_by_year (draws : list Draw) : list (Z * list Draw) :=
  fold_left (fun g draw => group_append (year draw) draw g) draws [].

Definition analyze_by_year (draws : list Draw) : list (Z * list FreqRow) :=
  map (fun kv => (fst kv, main (analyze_frequency (snd kv))))
      (draws_by_year draws).

(** The per-draw quantities of [calculate_additional_stats]. *)
Definition odd_count (draw : Draw) : Z :=
  py_sum (map (fun _ => 1) (filter (fun num => num mod 2 =? 1) (numbers draw))).

Definition high_count (draw : Draw) : Z :=
  py_sum (map (fun _ => 1) (filter (fun num => 25 <? num) (numbers draw))).

Fixpoint consecutive_from (sorted_nums : list Z) (consecutive : Z) : Z :=
  match sorted_nums with
  | a :: (b :: _) as t =>
      consecutive_from t (if b - a =? 1 then consecutive + 1 else consecutive)
  | _ => consecutive
  end.

Definition consecutive_pairs (draw : Draw) : Z :=
  consecutive_from (sorted (numbers draw)) 0.

Definition draw_range (draw : Draw) : result Z :=
  hi <- py_max (numbers draw) ;;
  lo <- py_min (numbers draw) ;;
  Ok (hi - lo).

Definition odd_even_label (odd : Z) : string :=
  (py_str_int odd ++ " odd, " ++ py_str_int (7 - odd) ++ " even")%string.

Definition high_low_label (high : Z) : string :=
  (py_str_int high ++ " high, " ++ py_str_int (7 - high) ++ " low")%string.

Definition consecutive_label (pairs : Z) : string :=
  (py_str_int pairs ++ " consecutive pairs")%string.

(** [{label(k): count for k, count in sorted(Counter(xs).items())}]. *)
Definition distribution (label : Z -> string) (xs : list Z)
  : list (string * Z) :=
  map (fun kv => (label (fst kv), snd kv)) (sorted_items (Counter Z.eqb xs)).

Definition calculate_additional_stats (draws : list Draw)
  : result (list (string * StatValue)) :=
  match draws with
  | [] => Ok []
  | _ =>
      let sums := map (fun draw => py_sum (numbers draw)) draws in
      average_sum <- py_truediv (py_sum sums) (len sums) ;;
      min_sum <- py_min sums ;;
      max_sum <- py_max sums ;;
      let odd_counts := map odd_count draws in
      avg_odd_numbers <- py_truediv (py_sum odd_counts) (len odd_counts) ;;
      let high_counts := map high_count draws in
      avg_high_numbers <- py_truediv (py_sum high_counts) (len high_counts) ;;
      let consecutive_counts := map consecutive_pairs draws in
      avg_consecutive_pairs <-
        py_truediv (py_sum consecutive_counts) (len consecutive_counts) ;;
      ranges <- mapM draw_range draws ;;
      avg_range <- py_truediv (py_sum ranges) (len ranges) ;;
      min_range <- py_min ranges ;;
      max_range <- py_max ranges ;;
      Ok [ ("average_sum", SFloat average_sum);
           ("min_sum", SInt min_sum);
           ("max_sum", SInt max_sum);
           ("odd_even_distribution",
             SDict (distribution odd_even_label odd_counts));
           ("avg_odd_numbers", SFloat avg_odd_numbers);
           ("high_low_distribution",
             SDict (distribution high_low_label high_counts));
           ("avg_high_numbers", SFloat avg_high_numbers);
           ("consecutive_pairs_distribution",
             SDict (distribution consecutive_label consecutive_counts));
           ("avg_consecutive_pairs", SFloat avg_consecutive_pairs);
           ("avg_range", SFloat avg_range);
           ("min_range", SInt min_range);
           ("max_range", SInt max_range) ]
  end.

(** [stats[key]]. *)
Fixpoint stats_get (key : string) (stats : list (string * StatValue))
  : option StatValue :=
  match stats with
  | [] => None
  | (k, v) :: t => if String.eqb key k then Some v else stats_get key t
  end.

(** [find_hot_cold_numbers]: the two columns are added to a copy of the frame
    it receives, row by row.  The floats of the two columns are modelled as
    exact rationals: the rounding of double arithmetic is left out, and the
    statements on the values of the deviations are statements on the exact
    quotients. *)
Definition expected_freq (total_draws : Z) : Q :=
  (inject_Z (total_draws * 7) / inject_Z 50)%Q.

Definition add_columns (freq_df : list FreqRow) (total_draws : Z)
  : list ScoredRow :=
  map (fun row =>
         let e := expected_freq total_draws in
         mkScoredRow row e ((inject_Z (frequency row) - e) / e * inject_Z 100)%Q)
      freq_df.

Definition find_hot_cold_numbers (freq_df : list FreqRow) (total_draws : Z)
    (period : string) : HotCold :=
  let freq_df := add_columns freq_df total_draws in
  let hot_numbers := head 10 (sort_values Qle_bool deviation false freq_df) in
  let cold_numbers := head 10 (sort_values Qle_bool deviation true freq_df) in
  mkHotCold period hot_numbers cold_numbers.

(** The inner loop of [find_patterns] over [enumerate(sorted(draws, ...))],
    started at index [i] with the loop state [(last_seen, gaps)]. *)
Fixpoint scan_gaps (num : Z) (ds : list Draw) (i : Z)
    (last_seen : option Z) (gaps : list Z) : option Z * list Z :=
  match ds with
  | [] => (last_seen, gaps)
  | draw :: rest =>
      if existsb (Z.eqb num) (numbers draw) then
        scan_gaps num rest (i + 1) (Some i)
          (match last_seen with
           | Some l => gaps ++ [i - l]
           | None => gaps
           end)
      else scan_gaps num rest (i + 1) last_seen gaps
  end.

Definition sorted_by_date (draws : list Draw) : list Draw :=
  sorted_by String.leb date draws.

(** One iteration of the outer loop: the entry stored for [num], if any. *)
Definition gaps_of (draws : list Draw) (num : Z) : option Z * list Z :=
  scan_gaps num (sorted_by_date draws) 0 None [].

Definition gap_entry (draws : list Draw) (num : Z)
  : result (option GapRecord) :=
  let '(last_seen, gaps) := gaps_of draws num in
  match gaps with
  | [] => Ok None
  | _ =>
      avg <- py_truediv (py_sum gaps) (len gaps) ;;
      mx <- py_max gaps ;;
      Ok (Some (mkGapRecord avg mx
                  (match last_seen with
                   | Some l => Some (len draws - l)
                   | None => None
                   end)))
  end.

Fixpoint fill_number_gaps (draws : list Draw) (nums : list Z)
    (number_gaps : list (Z * GapRecord)) : result (list (Z * GapRecord)) :=
  match nums with
  | [] => Ok number_gaps
  | num :: rest =>
      e <- gap_entry draws num ;;
      fill_number_gaps draws rest
        (match e with
         | Some g => number_gaps ++ [(num, g)]
         | None => number_gaps
         end)
  end.

(** [range(1, 51)]. *)
Definition pool : list Z := map Z.of_nat (seq 1 50).

Definition find_patterns (draws : list Draw) : result Patterns :=
  number_gaps <- fill_number_gaps draws pool [] ;;
  Ok (mkPatterns number_gaps).

(** [number_gaps[num]] / [num in number_gaps]. *)
Fixpoint gaps_get (num : Z) (g : list (Z * GapRecord)) : option GapRecord :=
  match g with
  | [] => None
  | (k, v) :: t => if num =? k then Some v else gaps_get num t
  end.

(** The configuration constants of the design; the source writes them as the
    literals 7, 50 and 10. *)
Definition DRAW_SIZE : Z := 7.
Definition POOL_SIZE : Z := 50.
Definition HOT_COLD_TOP_N : nat := 10.

(** Binomial coefficients, by Pascal's rule. *)
Fixpoint binom (n k : nat) : nat :=
  match k, n with
  | O, _ => 1
  | S _, O => 0
  | S k', S n' => binom n' k' + binom n' k
  end.

(** [frame.take(indexer)]: the rows at the positions [indexer], in that
    order.  [sort_values] is an argsort of the key column followed by [take];
    [analyze_frequency_with] is [analyze_frequency] with the argsort left
    open, for statements that must not depend on how the argsort treats
    equal keys. *)
Definition take {A : Type} (indexer : list nat) (rows : list A) : list A :=
  flat_map (fun i => match nth_error rows i with
                     | Some r => [r]
                     | None => []
                     end) indexer.

Definition analyze_frequency_with (argsort : list Z -> list nat)
    (draws : list Draw) : FreqResult :=
  let main_numbers := flat_map numbers draws in
  let main_freq := Counter Z.eqb main_numbers in
  let frame := map (fun kv => mkFreqRow (fst kv) (snd kv)) main_freq in
  mkFreqResult (take (argsort (map frequency frame)) frame).


(** ** Sample data *)

Definition spec_draw : Draw :=
  mkDraw "2020-01-03" [1; 2; 3; 10; 20; 30; 40] 2020.

Definition ascending_draw : Draw :=
  mkDraw "2021-01-01" [1; 2; 3; 4; 5; 6; 7] 2021.

Definition descending_draw : Draw :=
  mkDraw "2021-01-08" [7; 6; 5; 4; 3; 2; 1] 2021.

(** Ten draws in date order; number 5 is drawn at positions 2, 5 and 9. *)
Definition gap_draws : list Draw :=
  [ mkDraw "2022-01-07" [11; 12; 13; 14; 15; 16; 17] 2022;
    mkDraw "2022-01-14" [21; 22; 23; 24; 25; 26; 27] 2022;
    mkDraw "2022-01-21" [5; 12; 23; 34; 45; 46; 47] 2022;
    mkDraw "2022-01-28" [1; 2; 3; 4; 6; 7; 8] 2022;
    mkDraw "2022-02-04" [31; 32; 33; 34; 35; 36; 37] 2022;
    mkDraw "2022-02-11" [41; 42; 43; 5; 45; 46; 47] 2022;
    mkDraw "2022-02-18" [9; 19; 29; 39; 49; 50; 10] 2022;
    mkDraw "2022-02-25" [2; 4; 6; 8; 10; 12; 14] 2022;
    mkDraw "2022-03-04" [1; 3; 7; 9; 11; 13; 15] 2022;
    mkDraw "2022-03-11" [44; 33; 22; 11; 5; 16; 27] 2022 ].

(** Rows whose key is equivalent to [v] for the order [leb], and the two
    orders on rows that a sort by [key] establishes. *)
Definition same_key {A K : Type} (leb : K -> K -> bool) (key : A -> K)
    (v : K) (r : A) : bool :=
  leb v (key r) && leb (key r) v.

Definition key_le {A K : Type} (leb : K -> K -> bool) (key : A -> K)
    (a b : A) : Prop := leb (key a) (key b) = true.

Definition key_ge {A K : Type} (leb : K -> K -> bool) (key : A -> K)
    (a b : A) : Prop := leb (key b) (key a) = true.

(** ** Lookups *)

(** [c[k]] on a [Counter]: the count of a missing key is 0. *)
Fixpoint counter_get {K : Type} (eqb : K -> K -> bool) (k : K)
    (c : list (K * Z)) : Z :=
  match c with
  | [] => 0
  | (k', n) :: t => if eqb k k' then n else counter_get eqb k t
  end.

(** [l.count(k)]. *)
Definition count_of {K : Type} (eqb : K -> K -> bool) (k : K) (l : list K) : Z :=
  len (filter (eqb k) l).

(** [dict(zip(df["number"], df["frequency"])).get(num, 0)], the lookup that
    [visualize_data] makes in a frequency frame: the last row of a number
    wins, a missing number reads 0. *)
Definition freq_get (num : Z) (df : list FreqRow) : Z :=
  fold_left (fun acc row => if number row =? num then frequency row else acc)
            df 0.

(** [all(x in draw["numbers"] for x in t)]. *)
Definition drawn_together (t : list Z) (draw : Draw) : bool :=
  forallb (fun x => existsb (Z.eqb x) (numbers draw)) t.

(** The sum of a column of floats. *)
Definition q_sum (l : list Q) : Q := fold_right Qplus 0%Q l.

(** Eight draws of seven numbers that cover the pool 1..50. *)
Definition covering_draws : list Draw :=
  [ mkDraw "2024-01-05" [1; 2; 3; 4; 5; 6; 7] 2024;
    mkDraw "2024-01-12" [8; 9; 10; 11; 12; 13; 14] 2024;
    mkDraw "2024-01-19" [15; 16; 17; 18; 19; 20; 21] 2024;
    mkDraw "2024-01-26" [22; 23; 24; 25; 26; 27; 28] 2024;
    mkDraw "2024-02-02" [29; 30; 31; 32; 33; 34; 35] 2024;
    mkDraw "2024-02-09" [36; 37; 38; 39; 40; 41; 42] 2024;
    mkDraw "2024-02-16" [43; 44; 45; 46; 47; 48; 49] 2024;
    mkDraw "2024-02-23" [50; 1; 2; 3; 4; 5; 6] 2024 ].

(** The result of [find_patterns] on [gap_draws], evaluated. *)
Definition gap_draws_patterns : Patterns :=
  Eval vm_compute in
    match find_patterns gap_draws with
    | Ok patterns => patterns
    | Raise _ => mkPatterns []
    end.

(** ** The rows of [save_to_csv] *)

(** A cell of a row dict: a date string or an int. *)
Inductive CsvValue : Type :=
| CsvStr (s : string)
| CsvInt (n : Z).

(** [d[key] = v] on a dict with string keys: an existing key keeps its place. *)
Fixpoint dict_set {V : Type} (key : string) (v : V) (d : list (string * V))
  : list (string * V) :=
  match d with
  | [] => [(key, v)]
  | (k, x) :: t => if String.eqb key k then (k, v) :: t
                   else (k, x) :: dict_set key v t
  end.

Fixpoint dict_get {V : Type} (key : string) (d : list (string * V)) : option V :=
  match d with
  | [] => None
  | (k, x) :: t => if String.eqb key k then Some x else dict_get key t
  end.

(** [enumerate(l)], counting from [i]. *)
Fixpoint enumerate_from {A : Type} (i : Z) (l : list A) : list (Z * A) :=
  match l with
  | [] => []
  | x :: t => (i, x) :: enumerate_from (i + 1) t
  end.

(** [f"number_{i+1}"]. *)
Definition number_column (i : Z) : string :=
  ("number_" ++ py_str_int (i + 1))%string.

(** The row dict that [save_to_csv] builds for one draw, and the list [data]
    it hands to pandas; writing the file is outside the model. *)
Definition csv_row (draw : Draw) : list (string * CsvValue) :=
  fold_left (fun row p => dict_set (number_column (fst p)) (CsvInt (snd p)) row)
            (enumerate_from 0 (numbers draw))
            [("date", CsvStr (date draw)); ("year", CsvInt (year draw))].

Definition csv_data (draws : list Draw) : list (list (string * CsvValue)) :=
  map csv_row draws.

(** * Properties *)

(** ** Sums *)

Lemma fold_add_acc (l : list Z) (a : Z) : fold_left Z.add l a = a + fold_left Z.add l 0.
Proof.
  revert a. induction l as [|x l IH]; intros a; simpl.
  - lia.
  - rewrite IH, (IH x). lia.
Qed.

Lemma py_sum_cons (x : Z) (l : list Z) : py_sum (x :: l) = x + py_sum l.
Proof. unfold py_sum. simpl. apply fold_add_acc. Qed.

Lemma py_sum_nil : py_sum [] = 0.
Proof. reflexivity. Qed.

Lemma py_sum_app (l1 l2 : list Z) : py_sum (l1 ++ l2) = py_sum l1 + py_sum l2.
Proof.
  induction l1 as [|x l1 IH]; cbn [app].
  - rewrite py_sum_nil. lia.
  - rewrite !py_sum_cons, IH. lia.
Qed.

Lemma py_sum_perm (l1 l2 : list Z) : Permutation l1 l2 -> py_sum l1 = py_sum l2.
Proof.
  induction 1; rewrite ?py_sum_cons in *; try lia.
Qed.

Lemma py_sum_ones {A : Type} (l : list A) : py_sum (map (fun _ => 1) l) = len l.
Proof.
  unfold len. induction l as [|x l IH].
  - reflexivity.
  - cbn [map]. rewrite py_sum_cons, IH. cbn [List.length]. lia.
Qed.

Lemma len_app {A : Type} (l1 l2 : list A) : len (l1 ++ l2) = len l1 + len l2.
Proof. unfold len. rewrite length_app. lia. Qed.

Lemma len_cons {A : Type} (x : A) (l : list A) : len (x :: l) = 1 + len l.
Proof. unfold len. cbn [List.length]. lia. Qed.

(** ** The stable sort *)

Section StableSort.
Context {A K : Type}.
Variable leb : K -> K -> bool.
Variable key : A -> K.

Lemma insert_by_perm (x : A) (l : list A) :
  Permutation (x :: l) (insert_by leb key x l).
Proof.
  induction l as [|y t IH]; simpl.
  - apply Permutation_refl.
  - destruct (leb (key x) (key y)).
    + apply Permutation_refl.
    + eapply perm_trans; [apply perm_swap|]. now apply perm_skip.
Qed.

Lemma sorted_by_perm (l : list A) : Permutation l (sorted_by leb key l).
Proof.
  induction l as [|x l IH]; simpl.
  - constructor.
  - eapply perm_trans; [|apply insert_by_perm]. now apply perm_skip.
Qed.

Lemma sort_values_perm (ascending : bool) (l : list A) :
  Permutation l (sort_values leb key ascending l).
Proof.
  unfold sort_values. destruct ascending.
  - apply sorted_by_perm.
  - eapply perm_trans; [apply Permutation_rev|].
    eapply perm_trans; [apply sorted_by_perm|]. apply Permutation_rev.
Qed.

Local Abbreviation same_key := (same_key leb key).
Local Abbreviation key_le := (key_le leb key).
Local Abbreviation key_ge := (key_ge leb key).

Hypothesis leb_trans :
  forall a b c, leb a b = true -> leb b c = true -> leb a c = true.

Lemma insert_by_stable (v : K) (x : A) (l : list A) :
  filter (same_key v) (insert_by leb key x l) =
  filter (same_key v) (x :: l).
Proof.
  induction l as [|y t IH]; [reflexivity|].
  cbn [insert_by]. destruct (leb (key x) (key y)) eqn:Hxy; [reflexivity|].
  cbn [filter] in *. rewrite IH.
  destruct (same_key v x) eqn:Hx; [|reflexivity].
  destruct (same_key v y) eqn:Hy; [|reflexivity].
  unfold same_key in Hx, Hy.
  apply andb_true_iff in Hx as [_ Hx]. apply andb_true_iff in Hy as [Hy _].
  rewrite (leb_trans _ _ _ Hx Hy) in Hxy. discriminate.
Qed.

(** Stability of [sorted]: the rows of one key class come out in their input
    order. *)
Lemma sorted_by_stable (v : K) (l : list A) :
  filter (same_key v) (sorted_by leb key l) = filter (same_key v) l.
Proof.
  induction l as [|x l IH]; [reflexivity|].
  cbn [sorted_by fold_right]. rewrite insert_by_stable.
  cbn [filter]. fold (sorted_by leb key l). now rewrite IH.
Qed.

Hypothesis leb_total : forall a b, leb a b = false -> leb b a = true.

Lemma insert_by_sorted (x : A) (l : list A) :
  StronglySorted key_le l -> StronglySorted key_le (insert_by leb key x l).
Proof.
  induction 1 as [|y t Hs IH Hy]; cbn [insert_by].
  - repeat constructor.
  - destruct (leb (key x) (key y)) eqn:Hxy.
    + constructor; [now constructor|]. constructor; [exact Hxy|].
      eapply Forall_impl; [|exact Hy]. intros z Hz. unfold key_le in *.
      eapply leb_trans; eassumption.
    + constructor; [exact IH|].
      eapply Permutation_Forall; [apply insert_by_perm|].
      constructor; [|exact Hy]. now apply leb_total.
Qed.

Lemma sorted_by_sorted (l : list A) : StronglySorted key_le (sorted_by leb key l).
Proof.
  induction l as [|x l IH]; cbn [sorted_by fold_right].
  - constructor.
  - now apply insert_by_sorted.
Qed.

Lemma strongly_sorted_snoc (R : A -> A -> Prop) (l : list A) (x : A) :
  StronglySorted R l -> Forall (fun y => R y x) l -> StronglySorted R (l ++ [x]).
Proof.
  induction 1 as [|y t Hs IH Hy]; intros Hx; cbn [app].
  - repeat constructor.
  - inversion Hx; subst. constructor; [now apply IH|].
    apply Forall_app. split; [exact Hy|]. now repeat constructor.
Qed.

Lemma strongly_sorted_rev (l : list A) :
  StronglySorted key_le l -> StronglySorted key_ge (rev l).
Proof.
  induction 1 as [|y t Hs IH Hy]; cbn [rev].
  - constructor.
  - apply strongly_sorted_snoc; [exact IH|].
    apply Forall_rev. exact Hy.
Qed.

Lemma sort_values_ascending (l : list A) :
  StronglySorted key_le (sort_values leb key true l).
Proof. apply sorted_by_sorted. Qed.

Lemma sort_values_descending (l : list A) :
  StronglySorted key_ge (sort_values leb key false l).
Proof. apply strongly_sorted_rev, sorted_by_sorted. Qed.
End StableSort.

(** ** Counters *)

Section CounterFacts.
Context {K : Type}.
Variable eqb : K -> K -> bool.
Hypothesis eqb_eq : forall a b, eqb a b = true <-> a = b.

Lemma counter_incr_sum (k : K) (c : list (K * Z)) :
  py_sum (map snd (counter_incr eqb k c)) = py_sum (map snd c) + 1.
Proof.
  induction c as [|[k' n] t IH]; cbn [counter_incr map snd].
  - rewrite py_sum_cons, py_sum_nil. lia.
  - destruct (eqb k k'); cbn [map snd]; rewrite !py_sum_cons; lia.
Qed.

Lemma counter_incr_keys (k k0 : K) (c : list (K * Z)) :
  In k0 (map fst (counter_incr eqb k c)) <-> k0 = k \/ In k0 (map fst c).
Proof.
  induction c as [|[k' n] t IH]; cbn [counter_incr map fst In].
  - intuition congruence.
  - destruct (eqb k k') eqn:E; cbn [map fst In].
    + apply eqb_eq in E. subst k'. intuition congruence.
    + rewrite IH. intuition congruence.
Qed.

Lemma counter_incr_nodup (k : K) (c : list (K * Z)) :
  NoDup (map fst c) -> NoDup (map fst (counter_incr eqb k c)).
Proof.
  induction c as [|[k' n] t IH]; cbn [counter_incr map fst]; intros H.
  - repeat constructor. intros [].
  - inversion H as [|? ? Hn Ht]; subst.
    destruct (eqb k k') eqn:E; cbn [map fst].
    + now constructor.
    + constructor; [|now apply IH].
      rewrite counter_incr_keys. intros [->|Hin]; [|contradiction].
      assert (eqb k k = true) as E' by now apply eqb_eq. congruence.
Qed.

Lemma counter_incr_positive (k : K) (c : list (K * Z)) :
  Forall (fun kv => 1 <= snd kv) c ->
  Forall (fun kv => 1 <= snd kv) (counter_incr eqb k c).
Proof.
  induction 1 as [|[k' n] t Hn Ht IH]; cbn [counter_incr].
  - repeat constructor. cbn. lia.
  - destruct (eqb k k'); constructor; cbn [snd] in *; auto; lia.
Qed.

Lemma counter_update_sum (l : list K) (c : list (K * Z)) :
  py_sum (map snd (counter_update eqb c l)) = py_sum (map snd c) + len l.
Proof.
  unfold counter_update. revert c.
  induction l as [|k l IH]; intros c; cbn [fold_left].
  - unfold len. cbn. lia.
  - rewrite IH, counter_incr_sum, len_cons. lia.
Qed.

Lemma counter_update_keys (k0 : K) (l : list K) (c : list (K * Z)) :
  In k0 (map fst (counter_update eqb c l)) <-> In k0 (map fst c) \/ In k0 l.
Proof.
  unfold counter_update. revert c.
  induction l as [|k l IH]; intros c; cbn [fold_left In].
  - tauto.
  - rewrite IH, counter_incr_keys. intuition congruence.
Qed.

Lemma counter_update_nodup (l : list K) (c : list (K * Z)) :
  NoDup (map fst c) -> NoDup (map fst (counter_update eqb c l)).
Proof.
  unfold counter_update. revert c.
  induction l as [|k l IH]; intros c H; cbn [fold_left]; auto.
  apply IH. now apply counter_incr_nodup.
Qed.

Lemma counter_update_positive (l : list K) (c : list (K * Z)) :
  Forall (fun kv => 1 <= snd kv) c ->
  Forall (fun kv => 1 <= snd kv) (counter_update eqb c l).
Proof.
  unfold counter_update. revert c.
  induction l as [|k l IH]; intros c H; cbn [fold_left]; auto.
  apply IH. now apply counter_incr_positive.
Qed.
End CounterFacts.

(** ** The frequency analyzer *)

Lemma len_flat_map_numbers (draws : list Draw) :
  (forall d, In d draws -> len (numbers d) = DRAW_SIZE) ->
  len (flat_map numbers draws) = len draws * DRAW_SIZE.
Proof.
  induction draws as [|d draws IH]; intros H; cbn [flat_map].
  - reflexivity.
  - rewrite len_app, len_cons, IH, (H d); [lia|now left|].
    intros d' Hd'. apply H. now right.
Qed.

Lemma frame_frequency_column (c : list (Z * Z)) :
  map frequency (map (fun kv => mkFreqRow (fst kv) (snd kv)) c) = map snd c.
Proof. rewrite map_map. now apply map_ext. Qed.

Lemma frame_number_column (c : list (Z * Z)) :
  map number (map (fun kv => mkFreqRow (fst kv) (snd kv)) c) = map fst c.
Proof. rewrite map_map. now apply map_ext. Qed.

Lemma frequency_column_sum (draws : list Draw) :
  py_sum (map frequency (main (analyze_frequency draws))) =
  len (flat_map numbers draws).
Proof.
  unfold analyze_frequency. cbn [main].
  rewrite <- (py_sum_perm _ _
    (Permutation_map frequency (sort_values_perm Z.leb frequency false _))).
  rewrite frame_frequency_column.
  unfold Counter.
  rewrite (counter_update_sum Z.eqb (flat_map numbers draws) []).
  cbn [map]. rewrite py_sum_nil. lia.
Qed.

Lemma number_column_perm (draws : list Draw) :
  Permutation (map fst (Counter Z.eqb (flat_map numbers draws)))
              (map number (main (analyze_frequency draws))).
Proof.
  unfold analyze_frequency. cbn [main].
  eapply perm_trans;
    [|apply Permutation_map, (sort_values_perm Z.leb frequency false)].
  rewrite frame_number_column. apply Permutation_refl.
Qed.

Lemma number_column_spec (draws : list Draw) (n : Z) :
  In n (map number (main (analyze_frequency draws))) <->
  exists d, In d draws /\ In n (numbers d).
Proof.
  rewrite <- in_flat_map.
  split; intros H.
  - apply (Permutation_in _ (Permutation_sym (number_column_perm draws))) in H.
    unfold Counter in H. apply (counter_update_keys Z.eqb Z.eqb_eq) in H.
    destruct H as [[]|H]. exact H.
  - apply (Permutation_in _ (number_column_perm draws)).
    unfold Counter. apply (counter_update_keys Z.eqb Z.eqb_eq). now right.
Qed.

Lemma number_column_nodup (draws : list Draw) :
  NoDup (map number (main (analyze_frequency draws))).
Proof.
  eapply Permutation_NoDup; [apply number_column_perm|].
  unfold Counter. apply (counter_update_nodup Z.eqb Z.eqb_eq). constructor.
Qed.

Lemma frequency_column_positive (draws : list Draw) :
  Forall (fun row => 1 <= frequency row) (main (analyze_frequency draws)).
Proof.
  unfold analyze_frequency. cbn [main].
  eapply Permutation_Forall; [apply sort_values_perm|].
  apply Forall_map. cbn [frequency].
  unfold Counter. apply counter_update_positive. constructor.
Qed.

(** C1. For every draw set whose records hold exactly DRAW_SIZE numbers, the
    counts of the frequency table returned by [analyze_frequency] add up to
    [len(draws) * DRAW_SIZE], and its rows are, once each and with a count of
    at least one, exactly the numbers that occur in some draw. *)
Theorem frequency_table_total (draws : list Draw) :
  (forall d, In d draws -> len (numbers d) = DRAW_SIZE) ->
  py_sum (map frequency (main (analyze_frequency draws))) = len draws * DRAW_SIZE
  /\ (forall n, In n (map number (main (analyze_frequency draws))) <->
                exists d, In d draws /\ In n (numbers d))
  /\ NoDup (map number (main (analyze_frequency draws)))
  /\ Forall (fun row => 1 <= frequency row) (main (analyze_frequency draws)).
Proof.
  intros H. repeat split.
  - rewrite frequency_column_sum. now apply len_flat_map_numbers.
  - now apply number_column_spec.
  - now apply number_column_spec.
  - apply number_column_nodup.
  - apply frequency_column_positive.
Qed.

(** ** The temporal partitioner *)

Lemma group_append_keys (y k : Z) (d : Draw) (g : list (Z * list Draw)) :
  In k (map fst (group_append y d g)) <-> k = y \/ In k (map fst g).
Proof.
  induction g as [|[y' ds] t IH]; cbn [group_append map fst In].
  - intuition congruence.
  - destruct (y =? y') eqn:E; cbn [map fst In].
    + apply Z.eqb_eq in E. subst y'. intuition congruence.
    + rewrite IH. intuition congruence.
Qed.

Lemma group_append_nodup (y : Z) (d : Draw) (g : list (Z * list Draw)) :
  NoDup (map fst g) -> NoDup (map fst (group_append y d g)).
Proof.
  induction g as [|[y' ds] t IH]; cbn [group_append map fst]; intros H.
  - repeat constructor. intros [].
  - inversion H as [|? ? Hn Ht]; subst.
    destruct (y =? y') eqn:E; cbn [map fst].
    + now constructor.
    + constructor; [|now apply IH].
      rewrite group_append_keys. intros [->|Hin]; [|contradiction].
      rewrite Z.eqb_refl in E. discriminate.
Qed.

Lemma filter_year_snoc (k : Z) (p : list Draw) (d : Draw) :
  filter (fun d' => year d' =? k) (p ++ [d]) =
  filter (fun d' => year d' =? k) p ++ (if year d =? k then [d] else []).
Proof. rewrite filter_app. cbn [filter]. now destruct (year d =? k). Qed.

(** Every group holds, in input order, the processed draws of its year. *)
Lemma group_append_groups (d : Draw) (p : list Draw) (g : list (Z * list Draw)) :
  NoDup (map fst g) ->
  Forall (fun kv => snd kv = filter (fun d' => year d' =? fst kv) p) g ->
  filter (fun d' => year d' =? year d) p = [] \/ In (year d) (map fst g) ->
  Forall (fun kv => snd kv = filter (fun d' => year d' =? fst kv) (p ++ [d]))
         (group_append (year d) d g).
Proof.
  induction g as [|[y' ds] t IH]; cbn [group_append map fst]; intros Hnd Hg Hy.
  - constructor; [|constructor]. cbn [fst snd].
    rewrite filter_year_snoc, Z.eqb_refl.
    destruct Hy as [->|[]]. reflexivity.
  - inversion Hnd as [|? ? Hn Ht]; subst.
    inversion Hg as [|? ? Hhd Htl]; subst. cbn [fst snd] in Hhd.
    destruct (year d =? y') eqn:E.
    + apply Z.eqb_eq in E. subst y'.
      constructor.
      * cbn [fst snd]. rewrite filter_year_snoc, Z.eqb_refl. now rewrite Hhd.
      * rewrite Forall_forall in Htl |- *. intros [k ks] Hin. cbn [fst snd].
        rewrite filter_year_snoc.
        destruct (year d =? k) eqn:E'.
        -- apply Z.eqb_eq in E'. subst k. exfalso. apply Hn.
           apply in_map_iff. now exists (year d, ks).
        -- rewrite app_nil_r. exact (Htl _ Hin).
    + constructor.
      * cbn [fst snd]. rewrite filter_year_snoc, E, app_nil_r. exact Hhd.
      * apply IH; auto.
        destruct Hy as [Hy|[Hy|Hy]]; auto.
        cbn [fst] in Hy. subst y'. rewrite Z.eqb_refl in E. discriminate.
Qed.

Lemma group_append_total (d : Draw) (g : list (Z * list Draw)) :
  py_sum (map (fun kv => len (flat_map numbers (snd kv)))
              (group_append (year d) d g)) =
  py_sum (map (fun kv => len (flat_map numbers (snd kv))) g) + len (numbers d).
Proof.
  induction g as [|[y' ds] t IH]; cbn [group_append map snd].
  - cbn [flat_map]. rewrite app_nil_r, py_sum_cons, !py_sum_nil. lia.
  - destruct (year d =? y'); cbn [map snd]; rewrite !py_sum_cons.
    + rewrite flat_map_app, len_app. cbn [flat_map]. rewrite app_nil_r. lia.
    + rewrite IH. lia.
Qed.

(** The loop invariant of the grouping loop after the draws [p]. *)
Lemma draws_by_year_invariant (rest p : list Draw) (g : list (Z * list Draw)) :
  NoDup (map fst g) ->
  Forall (fun kv => snd kv = filter (fun d' => year d' =? fst kv) p) g ->
  (forall k, In k (map fst g) <-> exists d, In d p /\ year d = k) ->
  let g' := fold_left (fun g d => group_append (year d) d g) rest g in
  NoDup (map fst g')
  /\ Forall (fun kv => snd kv = filter (fun d' => year d' =? fst kv) (p ++ rest)) g'
  /\ (forall k, In k (map fst g') <-> exists d, In d (p ++ rest) /\ year d = k)
  /\ py_sum (map (fun kv => len (flat_map numbers (snd kv))) g') =
     py_sum (map (fun kv => len (flat_map numbers (snd kv))) g) +
     len (flat_map numbers rest).
Proof.
  revert p g. induction rest as [|d rest IH]; intros p g Hnd Hg Hk; cbn [fold_left].
  - rewrite app_nil_r. repeat split; auto; try apply Hk.
    cbn [flat_map]. unfold len. cbn. lia.
  - assert (Hk' : forall k, In k (map fst (group_append (year d) d g)) <->
                            exists d0, In d0 (p ++ [d]) /\ year d0 = k).
    { intros k. rewrite group_append_keys, Hk. split.
      - intros [->|[d0 [Hin Hy]]].
        + exists d. split; [apply in_or_app; right; now left|reflexivity].
        + exists d0. split; [apply in_or_app; now left|exact Hy].
      - intros [d0 [Hin Hy]]. apply in_app_or in Hin as [Hin|[->|[]]].
        + right. now exists d0.
        + now left. }
    assert (Hy : filter (fun d' => year d' =? year d) p = [] \/
                 In (year d) (map fst g)).
    { destruct (filter (fun d' => year d' =? year d) p) as [|d0 l] eqn:E;
        [now left|right].
      assert (Hin : In d0 (filter (fun d' => year d' =? year d) p))
        by (rewrite E; now left).
      apply filter_In in Hin as [Hin Hd0]. apply Z.eqb_eq in Hd0.
      apply Hk. now exists d0. }
    specialize (IH (p ++ [d]) (group_append (year d) d g)
                   (group_append_nodup _ _ _ Hnd)
                   (group_append_groups d p g Hnd Hg Hy) Hk').
    cbv zeta in IH. rewrite <- app_assoc in IH. cbn [app] in IH.
    destruct IH as (H1 & H2 & H3 & H4).
    repeat split; auto; try apply H3.
    rewrite H4, group_append_total. cbn [flat_map]. rewrite len_app. lia.
Qed.

Lemma draws_by_year_spec (draws : list Draw) :
  NoDup (map fst (draws_by_year draws))
  /\ Forall (fun kv => snd kv = filter (fun d' => year d' =? fst kv) draws)
            (draws_by_year draws)
  /\ (forall k, In k (map fst (draws_by_year draws)) <->
                exists d, In d draws /\ year d = k)
  /\ py_sum (map (fun kv => len (flat_map numbers (snd kv)))
                 (draws_by_year draws)) = len (flat_map numbers draws).
Proof.
  pose proof (draws_by_year_invariant draws [] []) as H.
  cbv zeta in H. cbn [app map] in H. rewrite py_sum_nil in H.
  apply H.
  - constructor.
  - constructor.
  - intros k. split; [intros []|intros [d [[] _]]].
Qed.

Lemma analyze_by_year_keys (draws : list Draw) :
  map fst (analyze_by_year draws) = map fst (draws_by_year draws).
Proof. unfold analyze_by_year. rewrite map_map. now apply map_ext. Qed.

(** C9. For every draw set whose records hold exactly DRAW_SIZE numbers,
    [analyze_by_year] has one entry per year that occurs in some draw and no
    other, the entry of a year is the frequency table of the draws carrying
    that [year] attribute, and the per-year table totals add up to the total
    of the overall frequency table (both being [len(draws) * DRAW_SIZE]). *)
Theorem by_year_partition_complete (draws : list Draw) :
  (forall d, In d draws -> len (numbers d) = DRAW_SIZE) ->
  NoDup (map fst (analyze_by_year draws))
  /\ (forall y, In y (map fst (analyze_by_year draws)) <->
                exists d, In d draws /\ year d = y)
  /\ (forall y df, In (y, df) (analyze_by_year draws) ->
        df = main (analyze_frequency (filter (fun d => year d =? y) draws)))
  /\ py_sum (map (fun kv => py_sum (map frequency (snd kv)))
                 (analyze_by_year draws)) =
     py_sum (map frequency (main (analyze_frequency draws)))
  /\ py_sum (map frequency (main (analyze_frequency draws))) =
     len draws * DRAW_SIZE.
Proof.
  intros H7.
  destruct (draws_by_year_spec draws) as (Hnd & Hg & Hk & Ht).
  repeat split.
  - rewrite analyze_by_year_keys. exact Hnd.
  - rewrite analyze_by_year_keys. apply Hk.
  - rewrite analyze_by_year_keys. apply Hk.
  - intros y df Hin. unfold analyze_by_year in Hin.
    apply in_map_iff in Hin as [[y' ds] [Heq Hin]].
    injection Heq as Hy Hdf.
    change (y' = y) in Hy. change (main (analyze_frequency ds) = df) in Hdf.
    subst y' df.
    rewrite Forall_forall in Hg. specialize (Hg _ Hin).
    change (ds = filter (fun d' => year d' =? y) draws) in Hg.
    now rewrite <- Hg.
  - rewrite frequency_column_sum, <- Ht. unfold analyze_by_year.
    rewrite map_map. f_equal. apply map_ext. intros [y ds]. cbn [snd].
    apply frequency_column_sum.
  - rewrite frequency_column_sum. now apply len_flat_map_numbers.
Qed.

(** ** Combinations *)

Lemma combos_length {A : Type} (l : list A) (r : nat) :
  List.length (combos l r) = binom (List.length l) r.
Proof.
  revert r. induction l as [|x t IH]; intros [|r']; cbn [combos binom List.length];
    try reflexivity.
  rewrite length_app, length_map, !IH. reflexivity.
Qed.

Lemma len_combos {A : Type} (l : list A) (r : nat) :
  len (combos l r) = Z.of_nat (binom (List.length l) r).
Proof. unfold len. now rewrite combos_length. Qed.

Lemma combos_short {A : Type} (l : list A) (r : nat) :
  (List.length l < r)%nat -> combos l r = [].
Proof.
  revert r. induction l as [|x t IH]; intros [|r'] H; cbn [combos List.length] in *;
    try reflexivity; try lia.
  rewrite (IH r'), (IH (S r')) by lia. reflexivity.
Qed.

(** A combination has [r] elements and is a subsequence of the pool: it
    inherits the pool's order. *)
Lemma combos_sorted {A : Type} (R : A -> A -> Prop) (l : list A) (r : nat)
    (c : list A) :
  StronglySorted R l -> In c (combos l r) ->
  List.length c = r /\ StronglySorted R c /\ Forall (fun x => In x l) c.
Proof.
  revert r c. induction l as [|x t IH]; intros [|r'] c Hs Hin;
    cbn [combos] in Hin.
  - destruct Hin as [<-|[]]. repeat constructor.
  - destruct Hin.
  - destruct Hin as [<-|[]]. repeat constructor.
  - inversion Hs as [|? ? Hst Hx]; subst.
    apply in_app_or in Hin as [Hin|Hin].
    + apply in_map_iff in Hin as [c' [<- Hin]].
      destruct (IH r' c' Hst Hin) as (Hl & Hc & Hsub).
      split; [cbn [List.length]; now rewrite Hl|]. split.
      * constructor; [exact Hc|].
        rewrite Forall_forall in Hsub, Hx |- *. auto.
      * constructor; [now left|].
        eapply Forall_impl; [|exact Hsub]. intros; now right.
    + destruct (IH (S r') c Hst Hin) as (Hl & Hc & Hsub).
      repeat split; auto.
      eapply Forall_impl; [|exact Hsub]. intros; now right.
Qed.

Lemma Zleb_trans (a b c : Z) : (a <=? b) = true -> (b <=? c) = true -> (a <=? c) = true.
Proof. rewrite !Z.leb_le. lia. Qed.

Lemma Zleb_total (a b : Z) : (a <=? b) = false -> (b <=? a) = true.
Proof. rewrite Z.leb_le, Z.leb_gt. lia. Qed.

Lemma sorted_perm (l : list Z) : Permutation l (sorted l).
Proof. apply sorted_by_perm. Qed.

Lemma sorted_ascending (l : list Z) : StronglySorted Z.le (sorted l).
Proof.
  pose proof (sorted_by_sorted Z.leb (fun x : Z => x) Zleb_trans Zleb_total l) as H.
  unfold sorted. induction H as [|x t Hs IH Hx]; constructor; auto.
  eapply Forall_impl; [|exact Hx]. intros y Hy. now apply Z.leb_le.
Qed.

Lemma ascending_nodup_strict (l : list Z) :
  StronglySorted Z.le l -> NoDup l -> StronglySorted Z.lt l.
Proof.
  induction 1 as [|x t Hs IH Hx]; intros Hnd; constructor;
    inversion Hnd as [|? ? Hn Ht]; subst; auto.
  rewrite Forall_forall in Hx |- *. intros y Hy.
  specialize (Hx y Hy). assert (x <> y) by (intros ->; contradiction). lia.
Qed.

Lemma sorted_strict (l : list Z) : NoDup l -> StronglySorted Z.lt (sorted l).
Proof.
  intros H. apply ascending_nodup_strict; [apply sorted_ascending|].
  eapply Permutation_NoDup; [apply sorted_perm|exact H].
Qed.

Lemma tuple_eqb_eq (s t : list Z) : tuple_eqb s t = true <-> s = t.
Proof.
  revert t. induction s as [|x s IH]; intros [|y t]; cbn [tuple_eqb];
    try (split; [discriminate|congruence]); [tauto|].
  rewrite andb_true_iff, Z.eqb_eq, IH. split; [intros [-> ->]|intros [= -> ->]]; auto.
Qed.

Lemma py_ssize_t_max_value :
  PY_SSIZE_T_MAX = 9223372036854775807
  /\ PY_SSIZE_T_MAX / 8 = 1152921504606846975.
Proof. split; reflexivity. Qed.

(** For a size from 0 to [INDEX_ALLOC_SAFE] the call returns the
    combinations. *)
Lemma itertools_combinations_ok (pool : list Z) (r : Z) :
  0 <= r <= INDEX_ALLOC_SAFE ->
  itertools_combinations pool r = Ok (combos pool (Z.to_nat r)).
Proof.
  intros H. unfold itertools_combinations.
  destruct py_ssize_t_max_value as [E1 E2]. unfold INDEX_ALLOC_SAFE in H.
  destruct (Z.ltb_spec r (- PY_SSIZE_T_MAX - 1)); [lia|].
  destruct (Z.ltb_spec PY_SSIZE_T_MAX r); [lia|].
  destruct (Z.ltb_spec r 0); [lia|].
  destruct (Z.ltb_spec (PY_SSIZE_T_MAX / 8) r); [lia|].
  reflexivity.
Qed.

(** The counting loop, for a size from 0 to [INDEX_ALLOC_SAFE], over draws of
    [n] distinct numbers: it does not raise, adds [C(n, k)] counts per draw,
    and every key it adds is a strictly ascending tuple of [k] numbers. *)
Lemma count_combinations_spec (n : nat) (k : Z) (draws : list Draw)
    (c : list (list Z * Z)) :
  0 <= k <= INDEX_ALLOC_SAFE ->
  (forall d, In d draws -> List.length (numbers d) = n /\ NoDup (numbers d)) ->
  Forall (fun t => len t = k /\ StronglySorted Z.lt t) (map fst c) ->
  exists c', count_combinations draws k c = Ok c'
    /\ py_sum (map snd c') =
       py_sum (map snd c) + len draws * Z.of_nat (binom n (Z.to_nat k))
    /\ Forall (fun t => len t = k /\ StronglySorted Z.lt t) (map fst c').
Proof.
  intros Hk. revert c. induction draws as [|d draws IH]; intros c Hd Hc;
    cbn [count_combinations].
  - exists c. repeat split; auto. unfold len. cbn. lia.
  - rewrite itertools_combinations_ok by exact Hk. cbn [bind].
    destruct (Hd d (or_introl eq_refl)) as [Hn Hnd].
    destruct (IH (counter_update tuple_eqb c
                    (combos (sorted (numbers d)) (Z.to_nat k)))) as (c' & H1 & H2 & H3).
    + intros d' Hd'. apply Hd. now right.
    + rewrite Forall_forall in Hc |- *. intros t Ht.
      apply (counter_update_keys tuple_eqb tuple_eqb_eq) in Ht as [Ht|Ht]; auto.
      destruct (combos_sorted Z.lt _ _ _ (sorted_strict _ Hnd) Ht) as (Hl & Hs & _).
      split; [unfold len; lia|exact Hs].
    + exists c'. split; [exact H1|]. split; [|exact H3].
      rewrite H2, counter_update_sum, len_combos.
      rewrite <- (Permutation_length (sorted_perm (numbers d))), Hn, len_cons. lia.
Qed.

Lemma combo_frame_frequency_column (c : list (list Z * Z)) :
  map combo_frequency
      (map (fun kv => mkComboRow (py_str_tuple (fst kv)) (snd kv)) c) = map snd c.
Proof. rewrite map_map. now apply map_ext. Qed.

Lemma combo_frame_combination_column (c : list (list Z * Z)) :
  map combination
      (map (fun kv => mkComboRow (py_str_tuple (fst kv)) (snd kv)) c) =
  map py_str_tuple (map fst c).
Proof. rewrite !map_map. now apply map_ext. Qed.

Lemma binom_7 :
  map (binom 7) [1; 2; 3; 4; 5; 6; 7]%nat = [7; 21; 35; 35; 21; 7; 1]%nat.
Proof. reflexivity. Qed.

(** C2. For every draw set whose records hold DRAW_SIZE distinct numbers and
    every k with 1 <= k <= DRAW_SIZE, [analyze_combinations] returns a table
    (it does not raise) whose counts add up to
    [len(draws) * C(DRAW_SIZE, k)], and every key of the table is the
    rendering of a strictly ascending tuple of k numbers. *)
Theorem combination_table_total (draws : list Draw) (k : Z) :
  (forall d, In d draws -> len (numbers d) = DRAW_SIZE /\ NoDup (numbers d)) ->
  1 <= k <= DRAW_SIZE ->
  exists table, analyze_combinations draws k = Ok table
    /\ py_sum (map combo_frequency table) =
       len draws * Z.of_nat (binom (Z.to_nat DRAW_SIZE) (Z.to_nat k))
    /\ forall row, In row table ->
         exists combo, combination row = py_str_tuple combo
           /\ len combo = k /\ StronglySorted Z.lt combo.
Proof.
  intros Hd Hk. unfold analyze_combinations.
  destruct (count_combinations_spec (Z.to_nat DRAW_SIZE) k draws []) as (c & H1 & H2 & H3).
  - unfold DRAW_SIZE in Hk. unfold INDEX_ALLOC_SAFE. lia.
  - intros d Hin. destruct (Hd d Hin) as [Hl Hn]. split; [|exact Hn].
    unfold len in Hl. lia.
  - constructor.
  - rewrite H1. cbn [bind]. eexists. split; [reflexivity|]. split.
    + rewrite <- (py_sum_perm _ _
        (Permutation_map combo_frequency
           (sort_values_perm Z.leb combo_frequency false _))).
      rewrite combo_frame_frequency_column, H2. cbn [map]. rewrite py_sum_nil. lia.
    + intros row Hrow.
      apply (Permutation_in _ (Permutation_sym
               (sort_values_perm Z.leb combo_frequency false _))) in Hrow.
      apply in_map_iff in Hrow as [[t m] [<- Hin]]. cbn [combination fst].
      exists t. split; [reflexivity|].
      rewrite Forall_forall in H3. apply H3.
      apply in_map_iff. now exists (t, m).
Qed.

Lemma frequency_table_total_witness :
  (forall d, In d [spec_draw; descending_draw] -> len (numbers d) = DRAW_SIZE)
  /\ py_sum (map frequency (main (analyze_frequency [spec_draw; descending_draw])))
     = len [spec_draw; descending_draw] * DRAW_SIZE.
Proof.
  assert (H : forall d, In d [spec_draw; descending_draw] ->
                        len (numbers d) = DRAW_SIZE)
    by (intros d [<-|[<-|[]]]; reflexivity).
  split; [exact H|].
  exact (proj1 (frequency_table_total [spec_draw; descending_draw] H)).
Defined.

Lemma by_year_partition_complete_witness :
  (forall d, In d [spec_draw; ascending_draw; descending_draw] ->
             len (numbers d) = DRAW_SIZE)
  /\ map fst (analyze_by_year [spec_draw; ascending_draw; descending_draw]) =
     [2020; 2021]
  /\ py_sum (map (fun kv => py_sum (map frequency (snd kv)))
                 (analyze_by_year [spec_draw; ascending_draw; descending_draw])) =
     py_sum (map frequency
               (main (analyze_frequency [spec_draw; ascending_draw; descending_draw]))).
Proof.
  assert (H : forall d, In d [spec_draw; ascending_draw; descending_draw] ->
                        len (numbers d) = DRAW_SIZE)
    by (intros d [<-|[<-|[<-|[]]]]; reflexivity).
  split; [exact H|]. split; [reflexivity|].
  exact (proj1 (proj2 (proj2 (proj2
           (by_year_partition_complete
              [spec_draw; ascending_draw; descending_draw] H))))).
Defined.

Lemma combination_table_total_witness :
  (forall d, In d [spec_draw; descending_draw] ->
             len (numbers d) = DRAW_SIZE /\ NoDup (numbers d))
  /\ 1 <= 2 <= DRAW_SIZE
  /\ exists table, analyze_combinations [spec_draw; descending_draw] 2 = Ok table
       /\ py_sum (map combo_frequency table) = 2 * 21.
Proof.
  assert (H : forall d, In d [spec_draw; descending_draw] ->
                        len (numbers d) = DRAW_SIZE /\ NoDup (numbers d)).
  { intros d [<-|[<-|[]]]; (split; [reflexivity|]);
      repeat (constructor; [cbn; intuition discriminate|]); constructor. }
  assert (Hk : 1 <= 2 <= DRAW_SIZE) by (unfold DRAW_SIZE; lia).
  split; [exact H|]. split; [exact Hk|].
  destruct (combination_table_total [spec_draw; descending_draw] 2 H Hk)
    as (table & Ht & Hs & _).
  exists table. split; [exact Ht|exact Hs].
Defined.

(** ** Sizes outside [1, DRAW_SIZE] *)

Lemma combos_zero {A : Type} (l : list A) : combos l 0 = [[]].
Proof. now destruct l. Qed.

Lemma count_combinations_zero (draws : list Draw) (n : Z) :
  count_combinations draws 0 [([], n)] = Ok [([], n + len draws)].
Proof.
  revert n. induction draws as [|d draws IH]; intros n; cbn [count_combinations].
  - unfold len. cbn [List.length Z.of_nat]. now rewrite Z.add_0_r.
  - rewrite itertools_combinations_ok by (unfold INDEX_ALLOC_SAFE; lia).
    cbn [bind Z.to_nat]. rewrite combos_zero.
    cbn [counter_update fold_left counter_incr tuple_eqb].
    rewrite IH, len_cons. do 3 f_equal. lia.
Qed.

Lemma count_combinations_large (draws : list Draw) (k : Z)
    (c : list (list Z * Z)) :
  0 <= k <= INDEX_ALLOC_SAFE ->
  (forall d, In d draws -> len (numbers d) < k) ->
  count_combinations draws k c = Ok c.
Proof.
  intros Hk. induction draws as [|d draws IH]; intros Hd; cbn [count_combinations].
  - reflexivity.
  - rewrite itertools_combinations_ok by exact Hk. cbn [bind].
    rewrite combos_short.
    + cbn [counter_update fold_left]. apply IH. intros d' Hd'. apply Hd. now right.
    + rewrite <- (Permutation_length (sorted_perm (numbers d))).
      specialize (Hd d (or_introl eq_refl)). unfold len in Hd. lia.
Qed.

(** C5 (amended). Over draws of DRAW_SIZE numbers, [analyze_combinations]
    called with the size 0 or with a size above DRAW_SIZE (up to
    [INDEX_ALLOC_SAFE]) raises nothing: it has no range check of its own.
    The size 0 yields the table whose single key is the empty tuple, counted
    once per draw (the empty table for no draws); a size above DRAW_SIZE
    yields the empty table. *)
Theorem combination_size_out_of_range (draws : list Draw) (k : Z) :
  (forall d, In d draws -> len (numbers d) = DRAW_SIZE) ->
  k = 0 \/ DRAW_SIZE < k <= INDEX_ALLOC_SAFE ->
  analyze_combinations draws k =
    if k =? 0 then
      match draws with
      | [] => Ok []
      | _ :: _ => Ok [mkComboRow "()" (len draws)]
      end
    else Ok [].
Proof.
  intros Hd Hk. unfold analyze_combinations.
  destruct (k =? 0) eqn:Ez.
  - apply Z.eqb_eq in Ez. subst k. destruct draws as [|d draws]; [reflexivity|].
    cbn [count_combinations].
    rewrite itertools_combinations_ok by (unfold INDEX_ALLOC_SAFE; lia).
    cbn [bind Z.to_nat]. rewrite combos_zero.
    cbn [counter_update fold_left counter_incr].
    rewrite count_combinations_zero, len_cons. reflexivity.
  - apply Z.eqb_neq in Ez. unfold DRAW_SIZE in *.
    rewrite count_combinations_large; [reflexivity|lia|].
    intros d Hin. rewrite (Hd d Hin). lia.
Qed.

Lemma combination_size_out_of_range_witness :
  (forall d, In d [spec_draw; descending_draw] -> len (numbers d) = DRAW_SIZE)
  /\ (DRAW_SIZE + 1 = 0 \/ DRAW_SIZE < DRAW_SIZE + 1 <= INDEX_ALLOC_SAFE)
  /\ analyze_combinations [spec_draw; descending_draw] (DRAW_SIZE + 1) = Ok [].
Proof.
  assert (H : forall d, In d [spec_draw; descending_draw] ->
                        len (numbers d) = DRAW_SIZE)
    by (intros d [<-|[<-|[]]]; reflexivity).
  assert (Hk : DRAW_SIZE + 1 = 0 \/ DRAW_SIZE < DRAW_SIZE + 1 <= INDEX_ALLOC_SAFE)
    by (right; unfold DRAW_SIZE, INDEX_ALLOC_SAFE; lia).
  split; [exact H|]. split; [exact Hk|].
  exact (combination_size_out_of_range [spec_draw; descending_draw]
           (DRAW_SIZE + 1) H Hk).
Defined.

(** C5 (as claimed) fails: sizes 0 and DRAW_SIZE + 1 are outside
    [1, DRAW_SIZE], yet the analyzer returns a table for each and raises
    nothing. *)
Lemma combination_size_not_rejected :
  (0 < 1 /\ DRAW_SIZE < DRAW_SIZE + 1)
  /\ analyze_combinations [spec_draw] 0 = Ok [mkComboRow "()" 1]
  /\ analyze_combinations [spec_draw] (DRAW_SIZE + 1) = Ok []
  /\ ~ (exists e, analyze_combinations [spec_draw] 0 = Raise e)
  /\ ~ (exists e, analyze_combinations [spec_draw] (DRAW_SIZE + 1) = Raise e).
Proof.
  split; [unfold DRAW_SIZE; lia|].
  split; [reflexivity|]. split; [reflexivity|].
  split; intros [e He]; vm_compute in He; discriminate.
Qed.

(** ** The deviation scorer *)

Lemma Qle_bool_trans (a b c : Q) :
  Qle_bool a b = true -> Qle_bool b c = true -> Qle_bool a c = true.
Proof. rewrite !Qle_bool_iff. apply Qle_trans. Qed.

Lemma Qle_bool_total (a b : Q) : Qle_bool a b = false -> Qle_bool b a = true.
Proof.
  intros H. apply Qle_bool_iff. apply Qlt_le_weak, Qnot_le_lt.
  intros Hle. apply Qle_bool_iff in Hle. congruence.
Qed.

Lemma add_columns_base (freq_df : list FreqRow) (total_draws : Z) :
  map base (add_columns freq_df total_draws) = freq_df.
Proof.
  unfold add_columns. rewrite map_map. cbn [base]. apply map_id.
Qed.

Lemma add_columns_length (freq_df : list FreqRow) (total_draws : Z) :
  List.length (add_columns freq_df total_draws) = List.length freq_df.
Proof. unfold add_columns. apply length_map. Qed.

Lemma expected_freq_value (total_draws : Z) :
  (expected_freq total_draws ==
   inject_Z total_draws * inject_Z DRAW_SIZE / inject_Z POOL_SIZE)%Q.
Proof.
  unfold expected_freq, DRAW_SIZE, POOL_SIZE. now rewrite inject_Z_mult.
Qed.

Lemma expected_freq_positive (total_draws : Z) :
  1 <= total_draws -> (0 < expected_freq total_draws)%Q.
Proof.
  intros H. unfold expected_freq, Qlt, Qdiv, Qmult, Qinv, inject_Z. cbn. lia.
Qed.

Lemma head_incl {A : Type} (n : nat) (rows : list A) (r : A) :
  In r (head n rows) -> In r rows.
Proof.
  unfold head. intros H. rewrite <- (firstn_skipn n rows).
  apply in_or_app. now left.
Qed.

Lemma head_all {A : Type} (n : nat) (rows : list A) :
  (List.length rows <= n)%nat -> head n rows = rows.
Proof. apply firstn_all2. Qed.

Lemma hot_rows (freq_df : list FreqRow) (total_draws : Z) (p : string) (r : ScoredRow) :
  In r (hot (find_hot_cold_numbers freq_df total_draws p)) ->
  In r (add_columns freq_df total_draws).
Proof.
  cbn [find_hot_cold_numbers hot]. intros H. apply head_incl in H.
  exact (Permutation_in _
           (Permutation_sym (sort_values_perm Qle_bool deviation false _)) H).
Qed.

Lemma cold_rows (freq_df : list FreqRow) (total_draws : Z) (p : string) (r : ScoredRow) :
  In r (cold (find_hot_cold_numbers freq_df total_draws p)) ->
  In r (add_columns freq_df total_draws).
Proof.
  cbn [find_hot_cold_numbers cold]. intros H. apply head_incl in H.
  exact (Permutation_in _
           (Permutation_sym (sort_values_perm Qle_bool deviation true _)) H).
Qed.

Lemma scored_row_number (freq_df : list FreqRow) (total_draws : Z) (r : ScoredRow) :
  In r (add_columns freq_df total_draws) -> In (number (base r)) (map number freq_df).
Proof.
  intros H. apply in_map. rewrite <- (add_columns_base freq_df total_draws).
  now apply in_map.
Qed.

(** The sorted scored table holds the rows of the received table, each with
    the two computed columns. *)
Lemma sorted_scored_rows (ascending : bool) (freq_df : list FreqRow)
    (total_draws : Z) :
  Permutation freq_df
    (map base (sort_values Qle_bool deviation ascending
                 (add_columns freq_df total_draws))).
Proof.
  rewrite <- (add_columns_base freq_df total_draws) at 1.
  apply Permutation_map, sort_values_perm.
Qed.

Lemma sorted_scored_values (ascending : bool) (freq_df : list FreqRow)
    (total_draws : Z) :
  Forall (fun r =>
            expected r = expected_freq total_draws
            /\ deviation r =
               ((inject_Z (frequency (base r)) - expected r) / expected r
                * inject_Z 100)%Q)
         (sort_values Qle_bool deviation ascending
            (add_columns freq_df total_draws)).
Proof.
  eapply Permutation_Forall; [apply sort_values_perm|].
  unfold add_columns. apply Forall_map, Forall_forall. intros r _.
  cbn [expected deviation base]. split; reflexivity.
Qed.

(** C3 (amended). For every frequency table and every total_draws >= 1,
    [find_hot_cold_numbers] computes
    [expected = total_draws * DRAW_SIZE / POOL_SIZE] (a positive value) and
    [deviation = (frequency - expected) / expected * 100] (as exact
    quotients) for the rows of the table it receives and for nothing else:
    the hot list is the first HOT_COLD_TOP_N rows of an arrangement of the
    rows of the table, each row carrying these two values, and so is the cold
    list; a number that is absent from the table gets no row and appears
    neither in the hot nor in the cold list. *)
Theorem deviation_scores_table_rows_only (freq_df : list FreqRow)
    (total_draws : Z) (p : string) :
  1 <= total_draws ->
  (expected_freq total_draws ==
   inject_Z total_draws * inject_Z DRAW_SIZE / inject_Z POOL_SIZE)%Q
  /\ (0 < expected_freq total_draws)%Q
  /\ (exists ranked,
        Permutation freq_df (map base ranked)
        /\ Forall (fun r =>
             expected r = expected_freq total_draws
             /\ deviation r =
                ((inject_Z (frequency (base r)) - expected r) / expected r
                 * inject_Z 100)%Q)
             ranked
        /\ hot (find_hot_cold_numbers freq_df total_draws p) =
           head HOT_COLD_TOP_N ranked)
  /\ (exists ranked,
        Permutation freq_df (map base ranked)
        /\ Forall (fun r =>
             expected r = expected_freq total_draws
             /\ deviation r =
                ((inject_Z (frequency (base r)) - expected r) / expected r
                 * inject_Z 100)%Q)
             ranked
        /\ cold (find_hot_cold_numbers freq_df total_draws p) =
           head HOT_COLD_TOP_N ranked)
  /\ forall n, ~ In n (map number freq_df) ->
       ~ In n (map (fun r => number (base r))
                   (hot (find_hot_cold_numbers freq_df total_draws p)))
       /\ ~ In n (map (fun r => number (base r))
                      (cold (find_hot_cold_numbers freq_df total_draws p))).
Proof.
  intros Ht.
  split; [apply expected_freq_value|].
  split; [now apply expected_freq_positive|].
  split; [|split].
  - exists (sort_values Qle_bool deviation false
              (add_columns freq_df total_draws)).
    split; [|split; [|reflexivity]].
    + apply (sorted_scored_rows false).
    + apply (sorted_scored_values false).
  - exists (sort_values Qle_bool deviation true
              (add_columns freq_df total_draws)).
    split; [|split; [|reflexivity]].
    + apply (sorted_scored_rows true).
    + apply (sorted_scored_values true).
  - intros n Hn. split; intros H; apply in_map_iff in H as [r [<- Hr]]; apply Hn.
    + eapply scored_row_number, hot_rows, Hr.
    + eapply scored_row_number, cold_rows, Hr.
Qed.

Lemma deviation_scores_table_rows_only_witness :
  1 <= 1
  /\ (exists ranked,
        Permutation [mkFreqRow 1 1] (map base ranked)
        /\ Forall (fun r =>
             expected r = expected_freq 1
             /\ deviation r =
                ((inject_Z (frequency (base r)) - expected r) / expected r
                 * inject_Z 100)%Q)
             ranked
        /\ hot (find_hot_cold_numbers [mkFreqRow 1 1] 1 "all time") =
           head HOT_COLD_TOP_N ranked)
  /\ ~ In 2 (map (fun r => number (base r))
                 (cold (find_hot_cold_numbers [mkFreqRow 1 1] 1 "all time"))).
Proof.
  assert (Ht : 1 <= 1) by lia.
  split; [exact Ht|]. split.
  - exact (proj1 (proj2 (proj2
             (deviation_scores_table_rows_only [mkFreqRow 1 1] 1 "all time" Ht)))).
  - refine (proj2 (proj2 (proj2 (proj2 (proj2
              (deviation_scores_table_rows_only [mkFreqRow 1 1] 1 "all time" Ht))))
              2 _)).
    cbn. intuition discriminate.
Defined.

(** C3 (as claimed) fails: number 2 is in the pool and absent from the table
    [{1: 1}]; it is given no row (no frequency 0, no deviation) and is in
    neither list. *)
Lemma absent_number_not_scored :
  1 <= 2 <= POOL_SIZE
  /\ ~ In 2 (map number [mkFreqRow 1 1])
  /\ ~ In 2 (map (fun r => number (base r)) (add_columns [mkFreqRow 1 1] 1))
  /\ ~ In 2 (map (fun r => number (base r))
                 (hot (find_hot_cold_numbers [mkFreqRow 1 1] 1 "all time")))
  /\ ~ In 2 (map (fun r => number (base r))
                 (cold (find_hot_cold_numbers [mkFreqRow 1 1] 1 "all time"))).
Proof.
  split; [unfold POOL_SIZE; lia|].
  repeat split; cbn; intuition discriminate.
Qed.

(** With at most HOT_COLD_TOP_N rows, [head] keeps the whole sorted table. *)
Lemma short_table_ranked_whole (ascending : bool) (freq_df : list FreqRow)
    (total_draws : Z) :
  (List.length freq_df <= HOT_COLD_TOP_N)%nat ->
  head 10 (sort_values Qle_bool deviation ascending
             (add_columns freq_df total_draws)) =
  sort_values Qle_bool deviation ascending (add_columns freq_df total_draws).
Proof.
  intros Hlen. apply head_all.
  rewrite <- (Permutation_length (sort_values_perm _ _ _ _)).
  now rewrite add_columns_length.
Qed.

(** C10. For every frequency table of at most HOT_COLD_TOP_N rows and every
    total_draws >= 1, the hot list and the cold list each hold all the rows
    of the table (each is an arrangement of the whole table with its two
    computed columns), so they hold the same rows and exactly the numbers of
    the table; unless the table is empty the two lists are not disjoint:
    every number of the table is in both. *)
Theorem hot_cold_same_numbers (freq_df : list FreqRow) (total_draws : Z)
    (p : string) :
  (List.length freq_df <= HOT_COLD_TOP_N)%nat ->
  1 <= total_draws ->
  Permutation freq_df
    (map base (hot (find_hot_cold_numbers freq_df total_draws p)))
  /\ Permutation freq_df
       (map base (cold (find_hot_cold_numbers freq_df total_draws p)))
  /\ Permutation (hot (find_hot_cold_numbers freq_df total_draws p))
                 (cold (find_hot_cold_numbers freq_df total_draws p))
  /\ (forall n,
        In n (map number freq_df) ->
        In n (map (fun r => number (base r))
                  (hot (find_hot_cold_numbers freq_df total_draws p)))
        /\ In n (map (fun r => number (base r))
                     (cold (find_hot_cold_numbers freq_df total_draws p))))
  /\ (forall n,
        In n (map (fun r => number (base r))
                  (hot (find_hot_cold_numbers freq_df total_draws p))) <->
        In n (map (fun r => number (base r))
                  (cold (find_hot_cold_numbers freq_df total_draws p))))
  /\ (freq_df <> [] ->
      exists r, In r (hot (find_hot_cold_numbers freq_df total_draws p))
                /\ In r (cold (find_hot_cold_numbers freq_df total_draws p))).
Proof.
  intros Hlen _.
  assert (Hh : Permutation (add_columns freq_df total_draws)
                 (hot (find_hot_cold_numbers freq_df total_draws p))).
  { cbn [find_hot_cold_numbers hot].
    rewrite (short_table_ranked_whole false _ _ Hlen).
    apply sort_values_perm. }
  assert (Hc : Permutation (add_columns freq_df total_draws)
                 (cold (find_hot_cold_numbers freq_df total_draws p))).
  { cbn [find_hot_cold_numbers cold].
    rewrite (short_table_ranked_whole true _ _ Hlen).
    apply sort_values_perm. }
  assert (Hp : Permutation (hot (find_hot_cold_numbers freq_df total_draws p))
                           (cold (find_hot_cold_numbers freq_df total_draws p)))
    by exact (perm_trans (Permutation_sym Hh) Hc).
  assert (Hbh : Permutation freq_df
                  (map base (hot (find_hot_cold_numbers freq_df total_draws p)))).
  { rewrite <- (add_columns_base freq_df total_draws) at 1.
    now apply Permutation_map. }
  assert (Hbc : Permutation freq_df
                  (map base (cold (find_hot_cold_numbers freq_df total_draws p)))).
  { rewrite <- (add_columns_base freq_df total_draws) at 1.
    now apply Permutation_map. }
  split; [exact Hbh|]. split; [exact Hbc|]. split; [exact Hp|].
  split; [|split].
  - intros n Hn. split.
    + rewrite <- (map_map base number).
      exact (Permutation_in _ (Permutation_map number Hbh) Hn).
    + rewrite <- (map_map base number).
      exact (Permutation_in _ (Permutation_map number Hbc) Hn).
  - intros n.
    split; apply Permutation_in, Permutation_map;
      [exact Hp|apply Permutation_sym, Hp].
  - intros Hne.
    destruct (add_columns freq_df total_draws) as [|r t] eqn:E.
    + apply (f_equal (@List.length ScoredRow)) in E.
      rewrite add_columns_length in E.
      destruct freq_df; [contradiction|discriminate].
    + exists r. split.
      * apply (Permutation_in _ Hh). now left.
      * apply (Permutation_in _ Hc). now left.
Qed.

Lemma hot_cold_same_numbers_witness :
  (List.length (main (analyze_frequency [spec_draw])) <= HOT_COLD_TOP_N)%nat
  /\ 1 <= 1
  /\ In 40 (map (fun r => number (base r))
              (hot (find_hot_cold_numbers (main (analyze_frequency [spec_draw]))
                      1 "all time")))
  /\ In 40 (map (fun r => number (base r))
              (cold (find_hot_cold_numbers (main (analyze_frequency [spec_draw]))
                       1 "all time"))).
Proof.
  assert (Hl : (List.length (main (analyze_frequency [spec_draw]))
                <= HOT_COLD_TOP_N)%nat) by (vm_compute; lia).
  assert (Ht : 1 <= 1) by lia.
  split; [exact Hl|]. split; [exact Ht|].
  apply (proj1 (proj2 (proj2 (proj2
           (hot_cold_same_numbers (main (analyze_frequency [spec_draw]))
              1 "all time" Hl Ht)))) 40).
  vm_compute. tauto.
Defined.

(** ** Ties in the rankings *)

Lemma strongly_sorted_first_two {A : Type} (R : A -> A -> Prop) (a b : A)
    (l : list A) :
  StronglySorted R (a :: b :: l) -> R a b.
Proof.
  intros H. apply StronglySorted_inv in H as [_ H]. now apply Forall_inv in H.
Qed.

Lemma frequency_ranking (draws : list Draw) :
  Permutation (map (fun kv => mkFreqRow (fst kv) (snd kv))
                   (Counter Z.eqb (flat_map numbers draws)))
              (main (analyze_frequency draws))
  /\ StronglySorted (fun a b => frequency b <= frequency a)
                    (main (analyze_frequency draws)).
Proof.
  unfold analyze_frequency. cbn [main]. split.
  - apply sort_values_perm.
  - pose proof (sort_values_descending Z.leb frequency Zleb_trans Zleb_total
                  (map (fun kv => mkFreqRow (fst kv) (snd kv))
                       (Counter Z.eqb (flat_map numbers draws)))) as H.
    induction H as [|x t Hs IH Hx]; constructor; auto.
    eapply Forall_impl; [|exact Hx]. intros y Hy. now apply Z.leb_le.
Qed.

Lemma deviation_ranking (ascending : bool) (scored : list ScoredRow) :
  Permutation scored (sort_values Qle_bool deviation ascending scored)
  /\ StronglySorted
       (fun a b => if ascending then (deviation a <= deviation b)%Q
                   else (deviation b <= deviation a)%Q)
       (sort_values Qle_bool deviation ascending scored).
Proof.
  split; [apply sort_values_perm|].
  destruct ascending.
  - pose proof (sort_values_ascending Qle_bool deviation Qle_bool_trans
                  Qle_bool_total scored) as H.
    induction H as [|x t Hs IH Hx]; constructor; auto.
    eapply Forall_impl; [|exact Hx]. intros y Hy. now apply Qle_bool_iff.
  - pose proof (sort_values_descending Qle_bool deviation Qle_bool_trans
                  Qle_bool_total scored) as H.
    induction H as [|x t Hs IH Hx]; constructor; auto.
    eapply Forall_impl; [|exact Hx]. intros y Hy. now apply Qle_bool_iff.
Qed.

(** C4 (amended). The frequency table holds the rows of the counter in
    descending order of count; the hot list is the first HOT_COLD_TOP_N rows
    of the scored table arranged in descending order of deviation, and the
    cold list the first HOT_COLD_TOP_N rows of it arranged in ascending order
    of deviation.  The count (the deviation) is the only sort key: nothing is
    said on the order among rows of equal count (deviation), and no tie-break
    by numeric value is enforced. *)
Theorem rankings_order_by_key_only (draws : list Draw)
    (freq_df : list FreqRow) (total_draws : Z) (p : string) :
  (Permutation (map (fun kv => mkFreqRow (fst kv) (snd kv))
                    (Counter Z.eqb (flat_map numbers draws)))
               (main (analyze_frequency draws))
   /\ StronglySorted (fun a b => frequency b <= frequency a)
                     (main (analyze_frequency draws)))
  /\ (exists ranked,
        hot (find_hot_cold_numbers freq_df total_draws p) =
        head HOT_COLD_TOP_N ranked
        /\ Permutation (add_columns freq_df total_draws) ranked
        /\ StronglySorted (fun a b => (deviation b <= deviation a)%Q) ranked)
  /\ (exists ranked,
        cold (find_hot_cold_numbers freq_df total_draws p) =
        head HOT_COLD_TOP_N ranked
        /\ Permutation (add_columns freq_df total_draws) ranked
        /\ StronglySorted (fun a b => (deviation a <= deviation b)%Q) ranked).
Proof.
  split; [apply frequency_ranking|]. split.
  - exists (sort_values Qle_bool deviation false (add_columns freq_df total_draws)).
    split; [reflexivity|].
    exact (deviation_ranking false (add_columns freq_df total_draws)).
  - exists (sort_values Qle_bool deviation true (add_columns freq_df total_draws)).
    split; [reflexivity|].
    exact (deviation_ranking true (add_columns freq_df total_draws)).
Qed.

(** Whatever argsort produces the indexer of the sort, stable or not, it sees
    the key column only; the draws 1, 2, ..., 7 and 7, 6, ..., 1 give the same
    key column, so one indexer serves both frames and cannot put both in
    ascending order of number. *)
Lemma ascending_frame_row (i : nat) :
  (i < 7)%nat ->
  nth_error (map (fun kv => mkFreqRow (fst kv) (snd kv))
                 (Counter Z.eqb (flat_map numbers [ascending_draw]))) i =
  Some (mkFreqRow (Z.of_nat i + 1) 1).
Proof.
  intros H. do 7 (destruct i as [|i]; [reflexivity|]). lia.
Qed.

Lemma descending_frame_row (i : nat) :
  (i < 7)%nat ->
  nth_error (map (fun kv => mkFreqRow (fst kv) (snd kv))
                 (Counter Z.eqb (flat_map numbers [descending_draw]))) i =
  Some (mkFreqRow (7 - Z.of_nat i) 1).
Proof.
  intros H. do 7 (destruct i as [|i]; [reflexivity|]). lia.
Qed.

Lemma no_argsort_orders_ties_by_number (argsort : list Z -> list nat) :
  Permutation (argsort [1; 1; 1; 1; 1; 1; 1]) (seq 0 7) ->
  ~ (StronglySorted
       (fun a b => frequency a = frequency b -> number a <= number b)
       (main (analyze_frequency_with argsort [ascending_draw]))
     /\ StronglySorted
          (fun a b => frequency a = frequency b -> number a <= number b)
          (main (analyze_frequency_with argsort [descending_draw]))).
Proof.
  intros Hp [Ha Hd].
  unfold analyze_frequency_with in Ha, Hd. cbn [main] in Ha, Hd.
  change (map frequency
            (map (fun kv => mkFreqRow (fst kv) (snd kv))
               (Counter Z.eqb (flat_map numbers [ascending_draw]))))
    with [1; 1; 1; 1; 1; 1; 1] in Ha.
  change (map frequency
            (map (fun kv => mkFreqRow (fst kv) (snd kv))
               (Counter Z.eqb (flat_map numbers [descending_draw]))))
    with [1; 1; 1; 1; 1; 1; 1] in Hd.
  pose proof (Permutation_length Hp) as Hlen.
  assert (Hnd : NoDup (argsort [1; 1; 1; 1; 1; 1; 1])).
  { eapply Permutation_NoDup; [apply Permutation_sym, Hp|apply seq_NoDup]. }
  assert (Hin : forall i, In i (argsort [1; 1; 1; 1; 1; 1; 1]) -> (i < 7)%nat).
  { intros i Hi. apply (Permutation_in _ Hp) in Hi. apply in_seq in Hi. lia. }
  destruct (argsort [1; 1; 1; 1; 1; 1; 1]) as [|i0 [|i1 rest]];
    try (cbn in Hlen; lia).
  assert (H0 : (i0 < 7)%nat) by (apply Hin; now left).
  assert (H1 : (i1 < 7)%nat) by (apply Hin; right; now left).
  assert (Hne : i0 <> i1).
  { inversion Hnd as [|? ? Hn _]; subst. intros ->. apply Hn. now left. }
  unfold take in Ha, Hd. cbn [flat_map] in Ha, Hd.
  rewrite !ascending_frame_row in Ha by assumption.
  rewrite !descending_frame_row in Hd by assumption.
  cbn [app] in Ha, Hd.
  apply strongly_sorted_first_two in Ha, Hd.
  cbn [frequency number] in Ha, Hd.
  specialize (Ha eq_refl). specialize (Hd eq_refl). lia.
Qed.

(** On the sample draws the [sort_values] of the model is an argsort (the
    identity indexer, all keys being equal) followed by [take]. *)
Lemma analyze_frequency_as_argsort :
  main (analyze_frequency [descending_draw]) =
  main (analyze_frequency_with (fun ks => seq 0 (List.length ks)) [descending_draw])
  /\ main (analyze_frequency [ascending_draw]) =
     main (analyze_frequency_with (fun ks => seq 0 (List.length ks)) [ascending_draw]).
Proof. split; reflexivity. Qed.

(** C4 (as claimed) fails.  Whatever the argsort of the key column does with
    equal keys, it cannot put the tables of both draws 1, 2, ..., 7 and
    7, 6, ..., 1 in ascending order of number: no tie-break by number is
    enforced.  With the argsort that keeps equal keys in place, the single
    draw 7, 6, 5, 4, 3, 2, 1, where every count and every deviation is the
    same, gives a frequency table, a hot list and a cold list that all start
    with 7 followed by 6. *)
Lemma ties_not_ordered_by_number :
  (forall argsort : list Z -> list nat,
     Permutation (argsort [1; 1; 1; 1; 1; 1; 1]) (seq 0 7) ->
     ~ (StronglySorted
          (fun a b => frequency a = frequency b -> number a <= number b)
          (main (analyze_frequency_with argsort [ascending_draw]))
        /\ StronglySorted
             (fun a b => frequency a = frequency b -> number a <= number b)
             (main (analyze_frequency_with argsort [descending_draw]))))
  /\ ~ StronglySorted
         (fun a b => frequency a = frequency b -> number a <= number b)
         (main (analyze_frequency [descending_draw]))
  /\ ~ StronglySorted
        (fun a b => (deviation a == deviation b)%Q ->
                    number (base a) <= number (base b))
        (hot (find_hot_cold_numbers
                (main (analyze_frequency [descending_draw])) 1 "all time"))
  /\ ~ StronglySorted
        (fun a b => (deviation a == deviation b)%Q ->
                    number (base a) <= number (base b))
        (cold (find_hot_cold_numbers
                 (main (analyze_frequency [descending_draw])) 1 "all time")).
Proof.
  split; [exact no_argsort_orders_ties_by_number|].
  repeat split; intros H.
  - apply (strongly_sorted_first_two _ (mkFreqRow 7 1) (mkFreqRow 6 1)) in H.
    cbn [frequency number] in H. specialize (H eq_refl). lia.
  - apply (strongly_sorted_first_two _
             (mkScoredRow (mkFreqRow 7 1) (expected_freq 1)
                ((inject_Z 1 - expected_freq 1) / expected_freq 1 * inject_Z 100))
             (mkScoredRow (mkFreqRow 6 1) (expected_freq 1)
                ((inject_Z 1 - expected_freq 1) / expected_freq 1 * inject_Z 100)))
      in H.
    cbn [deviation base number] in H. specialize (H (Qeq_refl _)). lia.
  - apply (strongly_sorted_first_two _
             (mkScoredRow (mkFreqRow 7 1) (expected_freq 1)
                ((inject_Z 1 - expected_freq 1) / expected_freq 1 * inject_Z 100))
             (mkScoredRow (mkFreqRow 6 1) (expected_freq 1)
                ((inject_Z 1 - expected_freq 1) / expected_freq 1 * inject_Z 100)))
      in H.
    cbn [deviation base number] in H. specialize (H (Qeq_refl _)). lia.
Qed.

(** ** The distribution analyzer *)

Lemma filter_perm {A : Type} (f : A -> bool) (l l' : list A) :
  Permutation l l' -> Permutation (filter f l) (filter f l').
Proof.
  induction 1 as [|x l l' _ IH|x y l|l l' l'' _ IH1 _ IH2]; cbn [filter].
  - constructor.
  - destruct (f x); [now constructor|exact IH].
  - destruct (f x), (f y); try apply Permutation_refl. apply perm_swap.
  - eapply perm_trans; eassumption.
Qed.

Lemma count_perm (f : Z -> bool) (l l' : list Z) :
  Permutation l l' ->
  py_sum (map (fun _ => 1) (filter f l)) = py_sum (map (fun _ => 1) (filter f l')).
Proof.
  intros H. rewrite !py_sum_ones. unfold len.
  now rewrite (Permutation_length (filter_perm f _ _ H)).
Qed.

(** An ascending list is determined by its elements. *)
Lemma ascending_unique (l l' : list Z) :
  StronglySorted Z.le l -> StronglySorted Z.le l' -> Permutation l l' -> l = l'.
Proof.
  intros Hl. revert l'. induction Hl as [|x t Hs IH Hx]; intros l' Hl' Hp.
  - apply Permutation_nil in Hp. now subst.
  - destruct Hl' as [|y t' Hs' Hy].
    + apply Permutation_sym, Permutation_nil in Hp. discriminate.
    + assert (x = y).
      { rewrite Forall_forall in Hx, Hy.
        assert (Hyin : In y (x :: t))
          by (apply (Permutation_in _ (Permutation_sym Hp)); now left).
        assert (Hxin : In x (y :: t')) by (apply (Permutation_in _ Hp); now left).
        destruct Hyin as [|Hyin]; [congruence|].
        destruct Hxin as [|Hxin]; [congruence|].
        specialize (Hx _ Hyin). specialize (Hy _ Hxin). lia. }
      subst y. f_equal. apply IH; [exact Hs'|].
      eapply Permutation_cons_inv; exact Hp.
Qed.

Lemma sorted_of_perm (l l' : list Z) :
  Permutation l l' -> sorted l = sorted l'.
Proof.
  intros H. apply ascending_unique; try apply sorted_ascending.
  eapply perm_trans; [apply Permutation_sym, sorted_perm|].
  eapply perm_trans; [exact H|apply sorted_perm].
Qed.

Lemma fold_max_spec (l : list Z) (a : Z) :
  a <= fold_left Z.max l a
  /\ Forall (fun x => x <= fold_left Z.max l a) l
  /\ (fold_left Z.max l a = a \/ In (fold_left Z.max l a) l).
Proof.
  revert a. induction l as [|x l IH]; intros a; cbn [fold_left].
  - repeat split; [lia|constructor|now left].
  - destruct (IH (Z.max a x)) as (H1 & H2 & H3). repeat split.
    + lia.
    + constructor; [lia|exact H2].
    + destruct H3 as [H3|H3]; [|right; now right].
      rewrite H3. destruct (Z.max_spec a x) as [[_ ->]|[_ ->]];
        [right; now left|now left].
Qed.

Lemma fold_min_spec (l : list Z) (a : Z) :
  fold_left Z.min l a <= a
  /\ Forall (fun x => fold_left Z.min l a <= x) l
  /\ (fold_left Z.min l a = a \/ In (fold_left Z.min l a) l).
Proof.
  revert a. induction l as [|x l IH]; intros a; cbn [fold_left].
  - repeat split; [lia|constructor|now left].
  - destruct (IH (Z.min a x)) as (H1 & H2 & H3). repeat split.
    + lia.
    + constructor; [lia|exact H2].
    + destruct H3 as [H3|H3]; [|right; now right].
      rewrite H3. destruct (Z.min_spec a x) as [[_ ->]|[_ ->]];
        [now left|right; now left].
Qed.

(** [max(l)] and [min(l)] of a non-empty sequence return an element that
    bounds the others. *)
Lemma py_max_spec (l : list Z) :
  l <> [] ->
  exists m, py_max l = Ok m /\ In m l /\ Forall (fun x => x <= m) l.
Proof.
  destruct l as [|x t]; [congruence|]. intros _. cbn [py_max].
  destruct (fold_max_spec t x) as (H1 & H2 & H3).
  eexists. split; [reflexivity|]. split.
  - destruct H3 as [->|H3]; [now left|now right].
  - now constructor.
Qed.

Lemma py_min_spec (l : list Z) :
  l <> [] ->
  exists m, py_min l = Ok m /\ In m l /\ Forall (fun x => m <= x) l.
Proof.
  destruct l as [|x t]; [congruence|]. intros _. cbn [py_min].
  destruct (fold_min_spec t x) as (H1 & H2 & H3).
  eexists. split; [reflexivity|]. split.
  - destruct H3 as [->|H3]; [now left|now right].
  - now constructor.
Qed.

Lemma spec_numbers_range (draw : Draw) :
  Permutation (numbers draw) [1; 2; 3; 10; 20; 30; 40] ->
  draw_range draw = Ok 39.
Proof.
  intros Hp. unfold draw_range.
  assert (Hne : numbers draw <> []).
  { intros E. rewrite E in Hp. apply Permutation_nil in Hp. discriminate. }
  destruct (py_max_spec _ Hne) as (hi & -> & Hhi & Hub).
  destruct (py_min_spec _ Hne) as (lo & -> & Hlo & Hlb).
  cbn [bind]. f_equal.
  apply (Permutation_in _ Hp) in Hhi, Hlo.
  rewrite Forall_forall in Hub, Hlb.
  assert (H40 : 40 <= hi).
  { apply Hub, (Permutation_in _ (Permutation_sym Hp)). cbn. tauto. }
  assert (H1 : lo <= 1).
  { apply Hlb, (Permutation_in _ (Permutation_sym Hp)). cbn. tauto. }
  cbn [In] in Hhi, Hlo. lia.
Qed.

(** C8. On an empty draw sequence [calculate_additional_stats] returns the
    empty stats dict and raises nothing, and the frequency table of
    [analyze_frequency] is the empty frame. *)
Theorem empty_input_yields_empty_results :
  calculate_additional_stats [] = Ok []
  /\ main (analyze_frequency []) = [].
Proof. split; reflexivity. Qed.

(** C6 (amended). For a single draw whose numbers are 1, 2, 3, 10, 20, 30, 40
    in any order, [calculate_additional_stats] computes odd_count = 2 (the odd
    numbers are 1 and 3), high_count = 2, consecutive_pairs = 2, sum = 106 and
    range = 39, and returns the stats dict built from these values. *)
Theorem distribution_of_spec_draw (draw : Draw) :
  Permutation (numbers draw) [1; 2; 3; 10; 20; 30; 40] ->
  odd_count draw = 2
  /\ high_count draw = 2
  /\ consecutive_pairs draw = 2
  /\ py_sum (numbers draw) = 106
  /\ draw_range draw = Ok 39
  /\ calculate_additional_stats [draw] =
     Ok [ ("average_sum", SFloat (106 # 1));
          ("min_sum", SInt 106);
          ("max_sum", SInt 106);
          ("odd_even_distribution", SDict [("2 odd, 5 even", 1)]);
          ("avg_odd_numbers", SFloat (2 # 1));
          ("high_low_distribution", SDict [("2 high, 5 low", 1)]);
          ("avg_high_numbers", SFloat (2 # 1));
          ("consecutive_pairs_distribution", SDict [("2 consecutive pairs", 1)]);
          ("avg_consecutive_pairs", SFloat (2 # 1));
          ("avg_range", SFloat (39 # 1));
          ("min_range", SInt 39);
          ("max_range", SInt 39) ].
Proof.
  intros Hp.
  assert (Hodd : odd_count draw = 2)
    by (unfold odd_count; now rewrite (count_perm _ _ _ Hp)).
  assert (Hhigh : high_count draw = 2)
    by (unfold high_count; now rewrite (count_perm _ _ _ Hp)).
  assert (Hcons : consecutive_pairs draw = 2)
    by (unfold consecutive_pairs; now rewrite (sorted_of_perm _ _ Hp)).
  assert (Hsum : py_sum (numbers draw) = 106)
    by now rewrite (py_sum_perm _ _ Hp).
  pose proof (spec_numbers_range draw Hp) as Hrange.
  repeat (split; [assumption|]).
  unfold calculate_additional_stats. cbn [map mapM].
  rewrite Hodd, Hhigh, Hcons, Hsum, Hrange. reflexivity.
Qed.

Lemma distribution_of_spec_draw_witness :
  Permutation (numbers spec_draw) [1; 2; 3; 10; 20; 30; 40]
  /\ odd_count spec_draw = 2.
Proof.
  assert (H : Permutation (numbers spec_draw) [1; 2; 3; 10; 20; 30; 40])
    by apply Permutation_refl.
  split; [exact H|]. exact (proj1 (distribution_of_spec_draw spec_draw H)).
Defined.

(** C6 (as claimed) fails on odd_count: of 1, 2, 3, 10, 20, 30, 40 only 1 and
    3 are odd, so the analyzer counts 2 odd numbers, not 4. *)
Lemma spec_draw_odd_count_not_four :
  numbers spec_draw = [1; 2; 3; 10; 20; 30; 40]
  /\ odd_count spec_draw = 2
  /\ odd_count spec_draw <> 4
  /\ exists stats, calculate_additional_stats [spec_draw] = Ok stats
       /\ stats_get "odd_even_distribution" stats =
          Some (SDict [("2 odd, 5 even", 1)])
       /\ stats_get "avg_odd_numbers" stats = Some (SFloat (2 # 1)).
Proof.
  split; [reflexivity|]. split; [reflexivity|]. split; [discriminate|].
  eexists. split; [reflexivity|]. split; reflexivity.
Qed.

(** ** The gap tracker *)



Lemma existsb_eqb_true (num : Z) (l : list Z) :
  In num l -> existsb (Z.eqb num) l = true.
Proof.
  intros H. apply existsb_exists. exists num. split; [exact H|apply Z.eqb_refl].
Qed.

Lemma existsb_eqb_false (num : Z) (l : list Z) :
  ~ In num l -> existsb (Z.eqb num) l = false.
Proof.
  intros H. destruct (existsb (Z.eqb num) l) eqn:E; [|reflexivity].
  apply existsb_exists in E as [x [Hx Heq]]. apply Z.eqb_eq in Heq. now subst.
Qed.

Lemma pool_spec (num : Z) : In num pool <-> 1 <= num <= POOL_SIZE.
Proof.
  unfold pool, POOL_SIZE. rewrite in_map_iff. split.
  - intros [n [<- Hn]]. apply in_seq in Hn. lia.
  - intros H. exists (Z.to_nat num). split; [lia|]. apply in_seq. lia.
Qed.

(** The guarded division and maximum of [find_patterns] never raise. *)
Lemma gap_entry_total (draws : list Draw) (num : Z) :
  exists e, gap_entry draws num = Ok e.
Proof.
  unfold gap_entry. destruct (gaps_of draws num) as [last_seen [|g gs]].
  - now eexists.
  - unfold py_truediv. rewrite len_cons.
    destruct (1 + len gs =? 0) eqn:E.
    + apply Z.eqb_eq in E. unfold len in E. lia.
    + cbn [bind py_max]. now eexists.
Qed.

Lemma gaps_get_snoc (n num : Z) (g : GapRecord) (acc : list (Z * GapRecord)) :
  gaps_get n (acc ++ [(num, g)]) =
  match gaps_get n acc with
  | Some g' => Some g'
  | None => if n =? num then Some g else None
  end.
Proof.
  induction acc as [|[k v] t IH]; cbn [app gaps_get]; [reflexivity|].
  now destruct (n =? k).
Qed.

(** The outer loop returns, and leaves under each number of its range the
    entry computed for that number. *)
Lemma fill_number_gaps_spec (draws : list Draw) (nums : list Z)
    (acc : list (Z * GapRecord)) :
  exists r, fill_number_gaps draws nums acc = Ok r
    /\ forall n, gaps_get n r =
         match gaps_get n acc with
         | Some g => Some g
         | None =>
             if existsb (Z.eqb n) nums then
               match gap_entry draws n with
               | Ok e => e
               | Raise _ => None
               end
             else None
         end.
Proof.
  revert acc. induction nums as [|num rest IH]; intros acc;
    cbn [fill_number_gaps].
  - exists acc. split; [reflexivity|]. intros n. cbn [existsb].
    now destruct (gaps_get n acc).
  - destruct (gap_entry_total draws num) as [e He]. rewrite He. cbn [bind].
    destruct (IH (match e with
                  | Some g => acc ++ [(num, g)]
                  | None => acc
                  end)) as (r & Hr & Hget).
    exists r. split; [exact Hr|]. intros n. rewrite Hget. cbn [existsb].
    destruct e as [g|].
    + rewrite gaps_get_snoc. destruct (gaps_get n acc); [reflexivity|].
      destruct (n =? num) eqn:E; cbn [orb]; [|reflexivity].
      apply Z.eqb_eq in E. subst n. now rewrite He.
    + destruct (gaps_get n acc); [reflexivity|].
      destruct (n =? num) eqn:E; cbn [orb]; [|reflexivity].
      apply Z.eqb_eq in E. subst n. rewrite He.
      now destruct (existsb (Z.eqb num) rest).
Qed.






(** * Further properties of the analyzers *)

(** ** Counts held by a Counter *)

Section CounterCounts.
Context {K : Type}.
Variable eqb : K -> K -> bool.
Hypothesis eqb_eq : forall a b, eqb a b = true <-> a = b.

Lemma eqb_same (a : K) : eqb a a = true.
Proof. now apply eqb_eq. Qed.

Lemma eqb_sym (a b : K) : eqb a b = eqb b a.
Proof.
  destruct (eqb a b) eqn:E1, (eqb b a) eqn:E2; try reflexivity.
  - apply eqb_eq in E1. subst. rewrite eqb_same in E2. discriminate.
  - apply eqb_eq in E2. subst. rewrite eqb_same in E1. discriminate.
Qed.

Lemma counter_incr_get (k k0 : K) (c : list (K * Z)) :
  counter_get eqb k0 (counter_incr eqb k c) =
  counter_get eqb k0 c + (if eqb k0 k then 1 else 0).
Proof.
  induction c as [|[k' n] t IH]; cbn [counter_incr counter_get].
  - destruct (eqb k0 k); lia.
  - destruct (eqb k k') eqn:E; cbn [counter_get].
    + apply eqb_eq in E. subst k'. destruct (eqb k0 k); lia.
    + destruct (eqb k0 k') eqn:E'.
      * apply eqb_eq in E'. subst k'. rewrite eqb_sym, E. lia.
      * apply IH.
Qed.

Lemma counter_update_get (k0 : K) (l : list K) (c : list (K * Z)) :
  counter_get eqb k0 (counter_update eqb c l) =
  counter_get eqb k0 c + count_of eqb k0 l.
Proof.
  unfold counter_update, count_of. revert c.
  induction l as [|k l IH]; intros c; cbn [fold_left filter].
  - unfold len. cbn. lia.
  - rewrite IH, counter_incr_get.
    destruct (eqb k0 k); [rewrite len_cons|]; lia.
Qed.

Lemma counter_get_in (k : K) (v : Z) (c : list (K * Z)) :
  NoDup (map fst c) -> In (k, v) c -> counter_get eqb k c = v.
Proof.
  induction c as [|[k' n] t IH]; cbn [map fst counter_get]; intros Hnd Hin.
  - destruct Hin.
  - inversion Hnd as [|? ? Hn Ht]; subst.
    destruct Hin as [[= -> ->]|Hin].
    + now rewrite eqb_same.
    + destruct (eqb k k') eqn:E; [|now apply IH].
      apply eqb_eq in E. subst k'. exfalso. apply Hn.
      apply in_map_iff. now exists (k, v).
Qed.
End CounterCounts.

Lemma frequency_rows_hold_counts (draws : list Draw) :
  Forall (fun row =>
            frequency row =
            count_of Z.eqb (number row) (flat_map numbers draws))
         (main (analyze_frequency draws)).
Proof.
  unfold analyze_frequency. cbn [main].
  eapply Permutation_Forall; [apply sort_values_perm|].
  apply Forall_map, Forall_forall. intros [k v] Hin. cbn [frequency number fst snd].
  unfold Counter in Hin.
  rewrite <- (counter_get_in Z.eqb Z.eqb_eq k v _
                (counter_update_nodup Z.eqb Z.eqb_eq _ [] (NoDup_nil _)) Hin).
  unfold Counter. now rewrite (counter_update_get Z.eqb Z.eqb_eq).
Qed.

(** ** Combination counts *)

Lemma combos_incl {A : Type} (l : list A) (r : nat) (c : list A) :
  In c (combos l r) -> forall x, In x c -> In x l.
Proof.
  revert r c. induction l as [|y t IH]; intros [|r'] c Hin x Hx;
    cbn [combos] in Hin.
  - destruct Hin as [<-|[]]. destruct Hx.
  - destruct Hin.
  - destruct Hin as [<-|[]]. destruct Hx.
  - apply in_app_or in Hin as [Hin|Hin].
    + apply in_map_iff in Hin as [c' [<- Hin]].
      destruct Hx as [->|Hx]; [now left|right; eapply IH; eassumption].
    + right. eapply IH; eassumption.
Qed.

(** Distinct positions of a pool without repeats give distinct tuples. *)
Lemma combos_nodup {A : Type} (l : list A) (r : nat) :
  NoDup l -> NoDup (combos l r).
Proof.
  revert r. induction l as [|y t IH]; intros [|r'] Hnd; cbn [combos];
    try (repeat constructor; intros []).
  inversion Hnd as [|? ? Hy Ht]; subst.
  apply NoDup_app.
  - apply NoDup_map_NoDup_ForallPairs; [|now apply IH].
    intros a b _ _ E. now injection E.
  - now apply IH.
  - intros c Hc Hc'. apply in_map_iff in Hc as [c' [<- _]].
    apply Hy. apply (combos_incl _ _ _ Hc'). now left.
Qed.

(** Every strictly ascending tuple drawn from a strictly ascending pool is
    one of its combinations. *)
Lemma combos_complete (l t : list Z) :
  StronglySorted Z.lt l -> StronglySorted Z.lt t ->
  (forall x, In x t -> In x l) ->
  In t (combos l (List.length t)).
Proof.
  intros Hl. revert t. induction Hl as [|y l' Hs IH Hy]; intros t Ht Hin.
  - destruct t as [|x t']; [now left|].
    destruct (Hin x (or_introl eq_refl)).
  - destruct t as [|x t']; [now left|].
    cbn [List.length combos]. apply in_or_app.
    inversion Ht as [|? ? Hst Hx]; subst.
    rewrite Forall_forall in Hx, Hy.
    destruct (Hin x (or_introl eq_refl)) as [->|Hxl].
    + left. apply in_map, IH; [exact Hst|].
      intros z Hz. destruct (Hin z (or_intror Hz)) as [->|Hzl]; [|exact Hzl].
      specialize (Hx _ Hz). lia.
    + right. apply (IH (x :: t') Ht).
      intros z [->|Hz]; [exact Hxl|].
      destruct (Hin z (or_intror Hz)) as [->|Hzl]; [|exact Hzl].
      specialize (Hx _ Hz). specialize (Hy _ Hxl). lia.
Qed.

Lemma existsb_eqb_true_gen (t : list Z) (l : list (list Z)) :
  In t l -> existsb (tuple_eqb t) l = true.
Proof.
  intros H. apply existsb_exists. exists t. split; [exact H|].
  now apply tuple_eqb_eq.
Qed.

Lemma count_of_nodup {K : Type} (eqb : K -> K -> bool)
    (eqb_eq : forall a b, eqb a b = true <-> a = b) (k : K) (l : list K) :
  NoDup l -> count_of eqb k l = if existsb (eqb k) l then 1 else 0.
Proof.
  unfold count_of.
  induction 1 as [|x l Hx Hl IH]; cbn [filter existsb]; [reflexivity|].
  destruct (eqb k x) eqn:E; cbn [orb]; [|exact IH].
  apply eqb_eq in E. subst x. rewrite len_cons, IH.
  destruct (existsb (eqb k) l) eqn:E'; [|reflexivity].
  apply existsb_exists in E' as [y [Hy Hky]]. apply eqb_eq in Hky. now subst.
Qed.

Lemma drawn_together_spec (t : list Z) (draw : Draw) :
  drawn_together t draw = true <-> forall x, In x t -> In x (numbers draw).
Proof.
  unfold drawn_together. rewrite forallb_forall. split; intros H x Hx.
  - specialize (H x Hx). apply existsb_exists in H as [y [Hy E]].
    apply Z.eqb_eq in E. now subst.
  - now apply existsb_eqb_true, H.
Qed.

(** In a draw without repeats, a strictly ascending k-tuple is counted once
    if all its numbers were drawn and not at all otherwise. *)
Lemma count_in_draw (t : list Z) (draw : Draw) :
  NoDup (numbers draw) -> StronglySorted Z.lt t ->
  count_of tuple_eqb t (combos (sorted (numbers draw)) (List.length t)) =
  if drawn_together t draw then 1 else 0.
Proof.
  intros Hnd Ht.
  rewrite (count_of_nodup tuple_eqb tuple_eqb_eq).
  2:{ apply combos_nodup.
      eapply Permutation_NoDup; [apply sorted_perm|exact Hnd]. }
  destruct (drawn_together t draw) eqn:E.
  - rewrite existsb_eqb_true_gen; [reflexivity|].
    apply combos_complete; [now apply sorted_strict|exact Ht|].
    intros x Hx. apply (Permutation_in _ (sorted_perm _)).
    now apply (proj1 (drawn_together_spec t draw) E).
  - destruct (existsb _ _) eqn:E'; [|reflexivity].
    apply existsb_exists in E' as [c [Hc Heq]]. apply tuple_eqb_eq in Heq. subst c.
    assert (drawn_together t draw = true); [|congruence].
    apply drawn_together_spec. intros x Hx.
    apply (Permutation_in _ (Permutation_sym (sorted_perm _))).
    now apply (combos_incl _ _ _ Hc).
Qed.

(** The counting loop for a size from 0 to [INDEX_ALLOC_SAFE], over any
    draws: it returns,
    keeps the keys distinct, and adds to every tuple's count the number of
    times the tuple is generated. *)
Lemma count_combinations_get (k : Z) (draws : list Draw)
    (c : list (list Z * Z)) :
  0 <= k <= INDEX_ALLOC_SAFE -> NoDup (map fst c) ->
  exists c', count_combinations draws k c = Ok c'
    /\ NoDup (map fst c')
    /\ py_sum (map snd c') =
       py_sum (map snd c) +
       py_sum (map (fun d => Z.of_nat (binom (List.length (numbers d))
                                             (Z.to_nat k))) draws)
    /\ (forall t, counter_get tuple_eqb t c' =
                  counter_get tuple_eqb t c +
                  py_sum (map (fun d => count_of tuple_eqb t
                                          (combos (sorted (numbers d))
                                                  (Z.to_nat k))) draws))
    /\ (forall t, In t (map fst c') <->
                  In t (map fst c) \/
                  exists d, In d draws /\
                            In t (combos (sorted (numbers d)) (Z.to_nat k))).
Proof.
  intros Hk. revert c. induction draws as [|d draws IH]; intros c Hnd;
    cbn [count_combinations map].
  - exists c. rewrite py_sum_nil.
    split; [reflexivity|]. split; [exact Hnd|]. split; [lia|].
    split; [intros t; lia|]. intros t. split.
    + intros H; now left.
    + intros [H|[d [[] _]]]; exact H.
  - rewrite itertools_combinations_ok by exact Hk. cbn [bind].
    destruct (IH (counter_update tuple_eqb c
                    (combos (sorted (numbers d)) (Z.to_nat k))))
      as (c' & H1 & H2 & H3 & H4 & H5).
    { now apply (counter_update_nodup tuple_eqb tuple_eqb_eq). }
    exists c'. split; [exact H1|]. split; [exact H2|]. split; [|split].
    + rewrite H3, counter_update_sum, len_combos, py_sum_cons.
      rewrite <- (Permutation_length (sorted_perm (numbers d))). lia.
    + intros t. rewrite H4, (counter_update_get tuple_eqb tuple_eqb_eq), py_sum_cons.
      lia.
    + intros t. rewrite H5, (counter_update_keys tuple_eqb tuple_eqb_eq). split.
      * intros [[H|H]|[d' [Hd' H]]]; auto.
        -- right. exists d. split; [now left|exact H].
        -- right. exists d'. split; [now right|exact H].
      * intros [H|[d' [[<-|Hd'] H]]]; auto.
        right. now exists d'.
Qed.

(** X2. For a size k from 0 to [INDEX_ALLOC_SAFE] and any draws, whatever the
    number of entries of each record, [analyze_combinations] returns a table,
    and its counts add up to the sum over the draws of C(len(numbers), k). *)
Theorem combination_total_any_draws (draws : list Draw) (k : Z) :
  0 <= k <= INDEX_ALLOC_SAFE ->
  exists table, analyze_combinations draws k = Ok table
    /\ py_sum (map combo_frequency table) =
       py_sum (map (fun d => Z.of_nat (binom (List.length (numbers d))
                                             (Z.to_nat k))) draws).
Proof.
  intros Hk. unfold analyze_combinations.
  destruct (count_combinations_get k draws [] Hk (NoDup_nil _))
    as (c & H1 & _ & H3 & _).
  rewrite H1. cbn [bind]. eexists. split; [reflexivity|].
  rewrite <- (py_sum_perm _ _
    (Permutation_map combo_frequency
       (sort_values_perm Z.leb combo_frequency false _))).
  rewrite combo_frame_frequency_column, H3. cbn [map]. rewrite py_sum_nil. lia.
Qed.

Lemma combination_total_any_draws_witness :
  0 <= 3 <= INDEX_ALLOC_SAFE
  /\ exists table,
       analyze_combinations
         [mkDraw "2023-01-06" [4; 9; 4; 1] 2023; mkDraw "2023-01-13" [8; 2] 2023] 3
       = Ok table
       /\ py_sum (map combo_frequency table) = 4.
Proof.
  assert (Hk : 0 <= 3 <= INDEX_ALLOC_SAFE) by (unfold INDEX_ALLOC_SAFE; lia).
  split; [exact Hk|].
  exact (combination_total_any_draws
           [mkDraw "2023-01-06" [4; 9; 4; 1] 2023; mkDraw "2023-01-13" [8; 2] 2023]
           3 Hk).
Defined.

Lemma cooccurrence_sum (t : list Z) (draws : list Draw) :
  py_sum (map (fun d => if drawn_together t d then 1 else 0) draws) =
  len (filter (drawn_together t) draws).
Proof.
  induction draws as [|d draws IH]; cbn [map filter]; [reflexivity|].
  rewrite py_sum_cons, IH. destruct (drawn_together t d); [rewrite len_cons|]; lia.
Qed.

(** X3. Over draws without repeated numbers and for a size k from 0 to
    [INDEX_ALLOC_SAFE], [analyze_combinations] returns a table; every row of the
    combination table is keyed by a strictly ascending k-tuple and holds the
    number of draws in which all numbers of the tuple were drawn together
    (at least one); and every strictly ascending k-tuple drawn together in
    some draw has a row. *)
Theorem combination_count_is_cooccurrence (draws : list Draw) (k : Z) :
  0 <= k <= INDEX_ALLOC_SAFE ->
  (forall d, In d draws -> NoDup (numbers d)) ->
  exists table, analyze_combinations draws k = Ok table
    /\ (forall row, In row table ->
          exists t, combination row = py_str_tuple t
            /\ len t = k /\ StronglySorted Z.lt t
            /\ combo_frequency row = len (filter (drawn_together t) draws)
            /\ 1 <= combo_frequency row)
    /\ (forall t, len t = k -> StronglySorted Z.lt t ->
          (exists d, In d draws /\ drawn_together t d = true) ->
          exists row, In row table /\ combination row = py_str_tuple t).
Proof.
  intros Hk Hnd. unfold analyze_combinations.
  destruct (count_combinations_get k draws [] Hk (NoDup_nil _))
    as (c & H1 & H2 & _ & H4 & H5).
  rewrite H1. cbn [bind]. eexists. split; [reflexivity|].
  assert (Hcount : forall t, List.length t = Z.to_nat k -> StronglySorted Z.lt t ->
            counter_get tuple_eqb t c = len (filter (drawn_together t) draws)).
  { intros t Hl Hs. rewrite H4, <- cooccurrence_sum. cbn [counter_get].
    rewrite Z.add_0_l. f_equal. apply map_ext_in. intros d Hd.
    rewrite <- Hl. apply count_in_draw; [now apply Hnd|exact Hs]. }
  split.
  - intros row Hrow.
    apply (Permutation_in _ (Permutation_sym
             (sort_values_perm Z.leb combo_frequency false _))) in Hrow.
    apply in_map_iff in Hrow as [[t m] [<- Hin]].
    cbn [combination combo_frequency fst snd].
    assert (Hkey : In t (map fst c)) by (apply in_map_iff; now exists (t, m)).
    apply H5 in Hkey as [[]|[d [Hd Ht]]].
    assert (Hsd : StronglySorted Z.lt (sorted (numbers d)))
      by (apply sorted_strict; now apply Hnd).
    destruct (combos_sorted Z.lt _ _ _ Hsd Ht) as (Hl & Hs & Hsub).
    exists t. split; [reflexivity|]. split; [unfold len; lia|].
    split; [exact Hs|].
    rewrite <- (counter_get_in tuple_eqb tuple_eqb_eq t m c H2 Hin).
    split; [now apply Hcount|].
    rewrite (Hcount t Hl Hs).
    assert (Hdt : drawn_together t d = true).
    { apply drawn_together_spec. intros x Hx.
      apply (Permutation_in _ (Permutation_sym (sorted_perm _))).
      now apply (combos_incl _ _ _ Ht). }
    assert (Hf : In d (filter (drawn_together t) draws))
      by (apply filter_In; now split).
    unfold len. destruct (filter (drawn_together t) draws); [destruct Hf|].
    cbn [List.length]. lia.
  - intros t Hl Hs [d [Hd Hdt]].
    assert (Hkey : In t (map fst c)).
    { apply H5. right. exists d. split; [exact Hd|].
      replace (Z.to_nat k) with (List.length t) by (unfold len in Hl; lia).
      apply combos_complete; [apply sorted_strict; now apply Hnd|exact Hs|].
      intros x Hx. apply (Permutation_in _ (sorted_perm _)).
      now apply (proj1 (drawn_together_spec t d) Hdt). }
    apply in_map_iff in Hkey as [[t' m] [Ht' Hin]]. cbn [fst] in Ht'. subst t'.
    exists (mkComboRow (py_str_tuple t) m). split; [|reflexivity].
    apply (Permutation_in _ (sort_values_perm Z.leb combo_frequency false _)).
    apply in_map_iff. now exists (t, m).
Qed.

Lemma combination_count_is_cooccurrence_witness :
  0 <= 2 <= INDEX_ALLOC_SAFE
  /\ (forall d, In d [spec_draw; ascending_draw] -> NoDup (numbers d))
  /\ exists table, analyze_combinations [spec_draw; ascending_draw] 2 = Ok table
       /\ exists row, In row table /\ combination row = py_str_tuple [1; 3].
Proof.
  assert (Hk : 0 <= 2 <= INDEX_ALLOC_SAFE) by (unfold INDEX_ALLOC_SAFE; lia).
  assert (H : forall d, In d [spec_draw; ascending_draw] -> NoDup (numbers d)).
  { intros d [<-|[<-|[]]];
      repeat (constructor; [cbn; intuition discriminate|]); constructor. }
  split; [exact Hk|]. split; [exact H|].
  destruct (combination_count_is_cooccurrence [spec_draw; ascending_draw] 2 Hk H)
    as (table & Ht & _ & Hrow).
  exists table. split; [exact Ht|].
  apply Hrow.
  - reflexivity.
  - repeat constructor.
  - exists spec_draw. split; [now left|reflexivity].
Defined.

(** X4. The combination table does not depend on the order in which the
    numbers are listed inside each draw. *)
Theorem combinations_ignore_order_in_draw (draws draws' : list Draw) (k : Z) :
  Forall2 (fun d d' => Permutation (numbers d) (numbers d')) draws draws' ->
  analyze_combinations draws k = analyze_combinations draws' k.
Proof.
  intros H. unfold analyze_combinations. f_equal.
  generalize (@nil (list Z * Z)).
  induction H as [|d d' ds ds' Hp _ IH]; intros c; cbn [count_combinations].
  - reflexivity.
  - rewrite (sorted_of_perm _ _ Hp).
    destruct (itertools_combinations (sorted (numbers d')) k); cbn [bind];
      [apply IH|reflexivity].
Qed.

Lemma combinations_ignore_order_in_draw_witness :
  Forall2 (fun d d' => Permutation (numbers d) (numbers d'))
          [ascending_draw] [descending_draw]
  /\ analyze_combinations [ascending_draw] 3 =
     analyze_combinations [descending_draw] 3.
Proof.
  assert (H : Forall2 (fun d d' => Permutation (numbers d) (numbers d'))
                      [ascending_draw] [descending_draw]).
  { constructor; [|constructor].
    change (Permutation (rev (numbers descending_draw)) (numbers descending_draw)).
    apply Permutation_sym, Permutation_rev. }
  split; [exact H|].
  exact (combinations_ignore_order_in_draw [ascending_draw] [descending_draw] 3 H).
Defined.

(** ** Results and errors of the distribution analyzer *)

Lemma py_truediv_ok (a b : Z) :
  b <> 0 -> py_truediv a b = Ok (inject_Z a / inject_Z b)%Q.
Proof.
  intros H. unfold py_truediv. apply Z.eqb_neq in H. now rewrite H.
Qed.

Lemma len_map {A B : Type} (f : A -> B) (l : list A) : len (map f l) = len l.
Proof. unfold len. now rewrite length_map. Qed.

Lemma len_nonzero {A : Type} (l : list A) : l <> [] -> len l <> 0.
Proof. destruct l; [congruence|]. rewrite len_cons. unfold len. lia. Qed.

Lemma len_positive {A : Type} (l : list A) : l <> [] -> 0 < len l.
Proof. destruct l; [congruence|]. rewrite len_cons. unfold len. lia. Qed.

Lemma draw_range_ok (draw : Draw) :
  numbers draw <> [] ->
  exists hi lo, py_max (numbers draw) = Ok hi /\ py_min (numbers draw) = Ok lo
    /\ draw_range draw = Ok (hi - lo) /\ 0 <= hi - lo.
Proof.
  intros Hne. unfold draw_range.
  destruct (py_max_spec _ Hne) as (hi & Hhi & Hin & Hub).
  destruct (py_min_spec _ Hne) as (lo & Hlo & _ & _).
  exists hi, lo. rewrite Hhi, Hlo. cbn [bind]. repeat split; auto.
  destruct (py_min_spec _ Hne) as (lo' & Hlo' & Hin' & Hlb).
  assert (lo' = lo) by congruence. subst lo'.
  rewrite Forall_forall in Hub. specialize (Hub _ Hin'). lia.
Qed.

Lemma ranges_ok (draws : list Draw) :
  Forall (fun d => numbers d <> []) draws ->
  exists ranges, mapM draw_range draws = Ok ranges
    /\ List.length ranges = List.length draws
    /\ Forall (fun r => 0 <= r) ranges.
Proof.
  induction 1 as [|d draws Hd _ IH]; cbn [mapM].
  - exists []. repeat split; constructor.
  - destruct (draw_range_ok d Hd) as (hi & lo & _ & _ & Hr & Hpos).
    destruct IH as (ranges & Hrs & Hlen & Hall).
    rewrite Hr, Hrs. cbn [bind]. exists (hi - lo :: ranges).
    repeat split; [cbn [List.length]; now rewrite Hlen|now constructor].
Qed.

Lemma ranges_raise (draws : list Draw) :
  Exists (fun d => numbers d = []) draws ->
  mapM draw_range draws = Raise (ValueError "max() arg is an empty sequence").
Proof.
  induction draws as [|d draws IH]; intros H; [inversion H|].
  cbn [mapM]. destruct (numbers d) as [|x t] eqn:E.
  - unfold draw_range. rewrite E. reflexivity.
  - assert (Hne : numbers d <> []) by congruence.
    destruct (draw_range_ok d Hne) as (hi & lo & _ & _ & Hr & _).
    rewrite Hr. cbn [bind]. rewrite IH; [reflexivity|].
    inversion H as [? ? Hd|? ? Ht]; subst; [congruence|exact Ht].
Qed.

(** X5. On a non-empty draw sequence that contains a record with no numbers,
    [calculate_additional_stats] raises the ValueError of [max] on an empty
    sequence: the empty-input guard covers the sequence, not the records. *)
Theorem stats_raise_on_empty_record (draws : list Draw) :
  Exists (fun d => numbers d = []) draws ->
  calculate_additional_stats draws =
  Raise (ValueError "max() arg is an empty sequence").
Proof.
  intros H. destruct draws as [|d rest]; [inversion H|].
  unfold calculate_additional_stats. cbv beta iota zeta.
  remember (d :: rest) as draws eqn:E.
  assert (Hne : draws <> []) by (subst; discriminate).
  rewrite py_truediv_ok by (rewrite len_map; now apply len_nonzero).
  cbn [bind].
  destruct (py_min_spec (map (fun draw => py_sum (numbers draw)) draws))
    as (mn & -> & _); [subst; discriminate|].
  destruct (py_max_spec (map (fun draw => py_sum (numbers draw)) draws))
    as (mx & -> & _); [subst; discriminate|].
  cbn [bind].
  rewrite !py_truediv_ok by (rewrite len_map; now apply len_nonzero).
  cbn [bind]. rewrite (ranges_raise draws H). reflexivity.
Qed.

Lemma stats_raise_on_empty_record_witness :
  Exists (fun d => numbers d = []) [spec_draw; mkDraw "2020-01-10" [] 2020]
  /\ calculate_additional_stats [spec_draw; mkDraw "2020-01-10" [] 2020] =
     Raise (ValueError "max() arg is an empty sequence").
Proof.
  assert (H : Exists (fun d => numbers d = [])
                     [spec_draw; mkDraw "2020-01-10" [] 2020])
    by (apply Exists_cons_tl, Exists_cons_hd; reflexivity).
  split; [exact H|]. exact (stats_raise_on_empty_record _ H).
Defined.

(** The stats dict of a non-empty sequence of non-empty records, written
    out. *)
Lemma stats_written_out (draws : list Draw) :
  draws <> [] ->
  Forall (fun d => numbers d <> []) draws ->
  exists min_sum max_sum ranges min_range max_range,
    py_min (map (fun d => py_sum (numbers d)) draws) = Ok min_sum
    /\ py_max (map (fun d => py_sum (numbers d)) draws) = Ok max_sum
    /\ mapM draw_range draws = Ok ranges
    /\ List.length ranges = List.length draws
    /\ Forall (fun r => 0 <= r) ranges
    /\ py_min ranges = Ok min_range
    /\ py_max ranges = Ok max_range
    /\ calculate_additional_stats draws =
       Ok [ ("average_sum",
              SFloat (inject_Z (py_sum (map (fun d => py_sum (numbers d)) draws))
                      / inject_Z (len draws)));
            ("min_sum", SInt min_sum);
            ("max_sum", SInt max_sum);
            ("odd_even_distribution",
              SDict (distribution odd_even_label (map odd_count draws)));
            ("avg_odd_numbers",
              SFloat (inject_Z (py_sum (map odd_count draws))
                      / inject_Z (len draws)));
            ("high_low_distribution",
              SDict (distribution high_low_label (map high_count draws)));
            ("avg_high_numbers",
              SFloat (inject_Z (py_sum (map high_count draws))
                      / inject_Z (len draws)));
            ("consecutive_pairs_distribution",
              SDict (distribution consecutive_label
                       (map consecutive_pairs draws)));
            ("avg_consecutive_pairs",
              SFloat (inject_Z (py_sum (map consecutive_pairs draws))
                      / inject_Z (len draws)));
            ("avg_range",
              SFloat (inject_Z (py_sum ranges) / inject_Z (len draws)));
            ("min_range", SInt min_range);
            ("max_range", SInt max_range) ].
Proof.
  intros Hne Hall.
  assert (Hsums : map (fun d => py_sum (numbers d)) draws <> [])
    by (destruct draws; [congruence|discriminate]).
  destruct (py_min_spec _ Hsums) as (mn & Hmn & _).
  destruct (py_max_spec _ Hsums) as (mx & Hmx & _).
  destruct (ranges_ok draws Hall) as (ranges & Hr & Hlen & Hpos).
  assert (Hrne : ranges <> []).
  { destruct ranges; [|discriminate]. destruct draws; [congruence|discriminate]. }
  destruct (py_min_spec _ Hrne) as (rmn & Hrmn & _).
  destruct (py_max_spec _ Hrne) as (rmx & Hrmx & _).
  exists mn, mx, ranges, rmn, rmx.
  repeat (split; [assumption|]).
  destruct draws as [|d rest]; [congruence|].
  unfold calculate_additional_stats. cbv beta iota zeta.
  remember (d :: rest) as draws' eqn:E.
  rewrite !py_truediv_ok by (rewrite len_map; now apply len_nonzero).
  rewrite Hmn, Hmx, Hr. cbn [bind].
  rewrite py_truediv_ok.
  2:{ unfold len. rewrite Hlen. now apply len_nonzero. }
  rewrite Hrmn, Hrmx. cbn [bind].
  rewrite !len_map. unfold len at 5. rewrite Hlen. reflexivity.
Qed.

Lemma distribution_total (label : Z -> string) (xs : list Z) :
  py_sum (map snd (distribution label xs)) = len xs.
Proof.
  unfold distribution, sorted_items. rewrite map_map. cbn [snd].
  change (fun x : Z * Z => snd x) with (@snd Z Z).
  rewrite <- (py_sum_perm _ _
    (Permutation_map snd (sorted_by_perm pair_leb (fun p => p) (Counter Z.eqb xs)))).
  unfold Counter. rewrite counter_update_sum. cbn [map]. rewrite py_sum_nil. lia.
Qed.

(** X6. For a non-empty sequence of records that all hold at least one
    number, [calculate_additional_stats] returns the twelve statistics in a
    fixed key order, and the counts of each of its three distributions add up
    to the number of draws. *)
Theorem stats_distributions_cover_draws (draws : list Draw) :
  draws <> [] ->
  Forall (fun d => numbers d <> []) draws ->
  exists stats odd_even high_low consecutive,
    calculate_additional_stats draws = Ok stats
    /\ map fst stats =
       [ "average_sum"; "min_sum"; "max_sum"; "odd_even_distribution";
         "avg_odd_numbers"; "high_low_distribution"; "avg_high_numbers";
         "consecutive_pairs_distribution"; "avg_consecutive_pairs";
         "avg_range"; "min_range"; "max_range" ]
    /\ stats_get "odd_even_distribution" stats = Some (SDict odd_even)
    /\ py_sum (map snd odd_even) = len draws
    /\ stats_get "high_low_distribution" stats = Some (SDict high_low)
    /\ py_sum (map snd high_low) = len draws
    /\ stats_get "consecutive_pairs_distribution" stats = Some (SDict consecutive)
    /\ py_sum (map snd consecutive) = len draws.
Proof.
  intros Hne Hall.
  destruct (stats_written_out draws Hne Hall)
    as (mn & mx & ranges & rmn & rmx & _ & _ & _ & _ & _ & _ & _ & ->).
  do 4 eexists. split; [reflexivity|]. split; [reflexivity|].
  split; [reflexivity|]. split; [now rewrite distribution_total, len_map|].
  split; [reflexivity|]. split; [now rewrite distribution_total, len_map|].
  split; [reflexivity|]. now rewrite distribution_total, len_map.
Qed.

Lemma stats_distributions_cover_draws_witness :
  [spec_draw; ascending_draw] <> []
  /\ Forall (fun d => numbers d <> []) [spec_draw; ascending_draw]
  /\ exists stats odd_even,
       calculate_additional_stats [spec_draw; ascending_draw] = Ok stats
       /\ stats_get "odd_even_distribution" stats = Some (SDict odd_even)
       /\ py_sum (map snd odd_even) = 2.
Proof.
  assert (Hne : [spec_draw; ascending_draw] <> []) by discriminate.
  assert (Hall : Forall (fun d => numbers d <> []) [spec_draw; ascending_draw])
    by (repeat constructor; discriminate).
  split; [exact Hne|]. split; [exact Hall|].
  destruct (stats_distributions_cover_draws _ Hne Hall)
    as (stats & oe & hl & cp & Hs & _ & Hoe & Hsum & _).
  exists stats, oe. repeat split; assumption.
Defined.

Lemma sum_between (l : list Z) (lo hi : Z) :
  Forall (fun x => lo <= x <= hi) l ->
  lo * len l <= py_sum l <= hi * len l.
Proof.
  induction 1 as [|x l Hx _ IH].
  - rewrite py_sum_nil. unfold len. cbn. lia.
  - rewrite py_sum_cons, len_cons. lia.
Qed.

Lemma average_between (l : list Z) (n lo hi : Z) :
  0 < n -> lo * n <= py_sum l <= hi * n ->
  (inject_Z lo <= inject_Z (py_sum l) / inject_Z n <= inject_Z hi)%Q.
Proof.
  intros Hn [Hlo Hhi].
  assert (Hq : (0 < inject_Z n)%Q) by (unfold Qlt, inject_Z; cbn; lia).
  split.
  - apply Qle_shift_div_l; [exact Hq|].
    rewrite <- inject_Z_mult. unfold Qle, inject_Z. cbn [Qnum Qden]. lia.
  - apply Qle_shift_div_r; [exact Hq|].
    rewrite <- inject_Z_mult. unfold Qle, inject_Z. cbn [Qnum Qden]. lia.
Qed.

Lemma min_max_bounds (l : list Z) (lo hi : Z) :
  py_min l = Ok lo -> py_max l = Ok hi ->
  Forall (fun x => lo <= x <= hi) l /\ In lo l /\ In hi l.
Proof.
  intros Hlo Hhi.
  assert (Hne : l <> []) by (intros ->; discriminate).
  destruct (py_min_spec l Hne) as (lo' & E1 & Hin1 & Hlb).
  destruct (py_max_spec l Hne) as (hi' & E2 & Hin2 & Hub).
  assert (lo' = lo) by congruence. assert (hi' = hi) by congruence. subst.
  repeat split; auto.
  rewrite Forall_forall in *. intros x Hx. split; auto.
Qed.

(** X7. In the returned statistics the minimum and maximum are attained by a
    draw and bracket the average: min_sum <= average_sum <= max_sum and
    0 <= min_range <= avg_range <= max_range. *)
Theorem stats_average_between_min_and_max (draws : list Draw) :
  draws <> [] ->
  Forall (fun d => numbers d <> []) draws ->
  exists stats average_sum min_sum max_sum avg_range min_range max_range,
    calculate_additional_stats draws = Ok stats
    /\ stats_get "average_sum" stats = Some (SFloat average_sum)
    /\ stats_get "min_sum" stats = Some (SInt min_sum)
    /\ stats_get "max_sum" stats = Some (SInt max_sum)
    /\ stats_get "avg_range" stats = Some (SFloat avg_range)
    /\ stats_get "min_range" stats = Some (SInt min_range)
    /\ stats_get "max_range" stats = Some (SInt max_range)
    /\ (inject_Z min_sum <= average_sum <= inject_Z max_sum)%Q
    /\ (exists d, In d draws /\ py_sum (numbers d) = min_sum)
    /\ (exists d, In d draws /\ py_sum (numbers d) = max_sum)
    /\ (inject_Z min_range <= avg_range <= inject_Z max_range)%Q
    /\ 0 <= min_range.
Proof.
  intros Hne Hall.
  destruct (stats_written_out draws Hne Hall)
    as (mn & mx & ranges & rmn & rmx & Hmn & Hmx & _ & Hlen & Hpos & Hrmn & Hrmx & ->).
  destruct (min_max_bounds _ _ _ Hmn Hmx) as (Hb & Hin1 & Hin2).
  destruct (min_max_bounds _ _ _ Hrmn Hrmx) as (Hrb & Hrin & _).
  do 7 eexists. do 7 (split; [reflexivity|]).
  split; [|split; [|split; [|split]]].
  - apply average_between; [now apply len_positive|].
    rewrite <- (len_map (fun d => py_sum (numbers d)) draws).
    now apply sum_between.
  - apply in_map_iff in Hin1 as [d [E Hd]]. now exists d.
  - apply in_map_iff in Hin2 as [d [E Hd]]. now exists d.
  - apply average_between; [now apply len_positive|].
    replace (len draws) with (len ranges) by (unfold len; now rewrite Hlen).
    now apply sum_between.
  - rewrite Forall_forall in Hpos. now apply Hpos.
Qed.

Lemma stats_average_between_min_and_max_witness :
  [spec_draw; ascending_draw] <> []
  /\ Forall (fun d => numbers d <> []) [spec_draw; ascending_draw]
  /\ exists stats min_sum max_sum,
       calculate_additional_stats [spec_draw; ascending_draw] = Ok stats
       /\ stats_get "min_sum" stats = Some (SInt min_sum)
       /\ stats_get "max_sum" stats = Some (SInt max_sum)
       /\ (exists d, In d [spec_draw; ascending_draw]
                     /\ py_sum (numbers d) = min_sum).
Proof.
  assert (Hne : [spec_draw; ascending_draw] <> []) by discriminate.
  assert (Hall : Forall (fun d => numbers d <> []) [spec_draw; ascending_draw])
    by (repeat constructor; discriminate).
  split; [exact Hne|]. split; [exact Hall|].
  destruct (stats_average_between_min_and_max _ Hne Hall)
    as (stats & av & mn & mx & ar & rmn & rmx
        & Hs & _ & Hmn & Hmx & _ & _ & _ & _ & Hd & _).
  exists stats, mn, mx. repeat split; assumption.
Defined.

(** ** The per-draw quantities *)

Lemma consecutive_from_step (a b : Z) (t : list Z) (acc : Z) :
  consecutive_from (a :: b :: t) acc =
  consecutive_from (b :: t) (if b - a =? 1 then acc + 1 else acc).
Proof. reflexivity. Qed.

Lemma consecutive_from_acc (s : list Z) (acc : Z) :
  consecutive_from s acc = acc + consecutive_from s 0.
Proof.
  revert acc. induction s as [|a s IH]; intros acc.
  - cbn. lia.
  - destruct s as [|b t]; [cbn; lia|].
    rewrite !consecutive_from_step, IH, (IH (if b - a =? 1 then 0 + 1 else 0)).
    destruct (b - a =? 1); lia.
Qed.

Lemma existsb_above (v : Z) (l : list Z) :
  Forall (fun x => v < x) l -> existsb (Z.eqb v) l = false.
Proof.
  intros H. apply existsb_eqb_false. intros Hin.
  rewrite Forall_forall in H. specialize (H _ Hin). lia.
Qed.

(** On a strictly ascending list the adjacent pairs that differ by one are as
    many as the elements whose successor is in the list. *)
Lemma consecutive_from_strict (s : list Z) :
  StronglySorted Z.lt s ->
  consecutive_from s 0 =
  len (filter (fun n => existsb (Z.eqb (n + 1)) s) s).
Proof.
  induction 1 as [|a s Hs IH Ha]; [reflexivity|].
  destruct s as [|b t].
  - cbn [consecutive_from filter existsb].
    replace (a + 1 =? a) with false by (symmetry; apply Z.eqb_neq; lia).
    reflexivity.
  - rewrite consecutive_from_step, consecutive_from_acc, IH.
    inversion Ha as [|? ? Hab Hat]; subst.
    inversion Hs as [|? ? _ Hbt]; subst.
    assert (Hmem : existsb (Z.eqb (a + 1)) (a :: b :: t) = (b - a =? 1)).
    { cbn [existsb].
      replace (a + 1 =? a) with false by (symmetry; apply Z.eqb_neq; lia).
      cbn [orb]. destruct (b - a =? 1) eqn:E.
      - apply Z.eqb_eq in E. replace (a + 1 =? b) with true; [reflexivity|].
        symmetry. apply Z.eqb_eq. lia.
      - apply Z.eqb_neq in E.
        replace (a + 1 =? b) with false by (symmetry; apply Z.eqb_neq; lia).
        cbn [orb]. apply existsb_above.
        eapply Forall_impl; [|exact Hbt]. cbn. intros; lia. }
    assert (Hrest : filter (fun n => existsb (Z.eqb (n + 1)) (a :: b :: t)) (b :: t) =
                    filter (fun n => existsb (Z.eqb (n + 1)) (b :: t)) (b :: t)).
    { apply filter_ext_in. intros n Hn. cbn [existsb].
      replace (n + 1 =? a) with false; [reflexivity|].
      symmetry. apply Z.eqb_neq.
      rewrite Forall_forall in Ha. specialize (Ha _ Hn). lia. }
    change (filter (fun n => existsb (Z.eqb (n + 1)) (a :: b :: t)) (a :: b :: t))
      with (if existsb (Z.eqb (a + 1)) (a :: b :: t)
            then a :: filter (fun n => existsb (Z.eqb (n + 1)) (a :: b :: t)) (b :: t)
            else filter (fun n => existsb (Z.eqb (n + 1)) (a :: b :: t)) (b :: t)).
    rewrite Hmem, Hrest.
    destruct (b - a =? 1); [rewrite len_cons|]; lia.
Qed.

Lemma existsb_perm (v : Z) (l l' : list Z) :
  Permutation l l' -> existsb (Z.eqb v) l = existsb (Z.eqb v) l'.
Proof.
  intros H. destruct (existsb (Z.eqb v) l') eqn:E.
  - apply existsb_exists in E as [x [Hx Ex]]. apply Z.eqb_eq in Ex. subst x.
    apply existsb_eqb_true. now apply (Permutation_in _ (Permutation_sym H)).
  - apply existsb_eqb_false. intros Hin.
    apply (Permutation_in _ H) in Hin. apply existsb_eqb_true in Hin. congruence.
Qed.

(** X8. For a draw without repeated numbers, consecutive_pairs is the number
    of drawn numbers whose successor was drawn as well. *)
Theorem consecutive_pairs_count_successors (draw : Draw) :
  NoDup (numbers draw) ->
  consecutive_pairs draw =
  len (filter (fun n => existsb (Z.eqb (n + 1)) (numbers draw)) (numbers draw)).
Proof.
  intros Hnd. unfold consecutive_pairs.
  rewrite (consecutive_from_strict _ (sorted_strict _ Hnd)).
  unfold len. f_equal.
  rewrite (filter_ext _ (fun n => existsb (Z.eqb (n + 1)) (numbers draw))).
  - apply Permutation_length, filter_perm, Permutation_sym, sorted_perm.
  - intros n. apply existsb_perm, Permutation_sym, sorted_perm.
Qed.

Lemma consecutive_pairs_count_successors_witness :
  NoDup (numbers spec_draw)
  /\ consecutive_pairs spec_draw =
     len (filter (fun n => existsb (Z.eqb (n + 1)) (numbers spec_draw))
                 (numbers spec_draw)).
Proof.
  assert (H : NoDup (numbers spec_draw))
    by (repeat (constructor; [cbn; intuition discriminate|]); constructor).
  split; [exact H|]. exact (consecutive_pairs_count_successors spec_draw H).
Defined.

Lemma consecutive_from_bound (s : list Z) :
  0 <= consecutive_from s 0 <= Z.max 0 (len s - 1).
Proof.
  induction s as [|a s IH].
  - unfold len. cbn. lia.
  - destruct s as [|b t]; [unfold len; cbn; lia|].
    rewrite consecutive_from_step, consecutive_from_acc. rewrite !len_cons in *.
    assert (0 <= len t) by (unfold len; lia).
    destruct (b - a =? 1); lia.
Qed.

Lemma len_filter_bound {A : Type} (f : A -> bool) (l : list A) :
  0 <= len (filter f l) <= len l.
Proof.
  unfold len. pose proof (filter_length_le f l). lia.
Qed.

(** X9. For every draw the odd and high counts lie between 0 and the number
    of entries of the record, and consecutive_pairs between 0 and one less
    (0 for an empty record); so for a record of 7 entries both numbers in a
    bucket label "k odd, 7-k even" or "k high, 7-k low" are in 0..7. *)
Theorem per_draw_counts_bounded (draw : Draw) :
  0 <= odd_count draw <= len (numbers draw)
  /\ 0 <= high_count draw <= len (numbers draw)
  /\ 0 <= consecutive_pairs draw <= Z.max 0 (len (numbers draw) - 1).
Proof.
  unfold odd_count, high_count, consecutive_pairs.
  rewrite !py_sum_ones. split; [apply len_filter_bound|].
  split; [apply len_filter_bound|].
  replace (len (numbers draw)) with (len (sorted (numbers draw))).
  - apply consecutive_from_bound.
  - unfold len. now rewrite <- (Permutation_length (sorted_perm _)).
Qed.

Lemma py_max_perm (l l' : list Z) : Permutation l l' -> py_max l = py_max l'.
Proof.
  intros H. destruct l as [|x t].
  - apply Permutation_nil in H. now subst.
  - assert (Hne : x :: t <> []) by discriminate.
    assert (Hne' : l' <> []).
    { intros ->. apply Permutation_sym, Permutation_nil in H. discriminate. }
    destruct (py_max_spec _ Hne) as (m & -> & Hin & Hub).
    destruct (py_max_spec _ Hne') as (m' & -> & Hin' & Hub').
    rewrite Forall_forall in Hub, Hub'. f_equal.
    apply (Permutation_in _ H) in Hin.
    apply (Permutation_in _ (Permutation_sym H)) in Hin'.
    specialize (Hub _ Hin'). specialize (Hub' _ Hin). lia.
Qed.

Lemma py_min_perm (l l' : list Z) : Permutation l l' -> py_min l = py_min l'.
Proof.
  intros H. destruct l as [|x t].
  - apply Permutation_nil in H. now subst.
  - assert (Hne : x :: t <> []) by discriminate.
    assert (Hne' : l' <> []).
    { intros ->. apply Permutation_sym, Permutation_nil in H. discriminate. }
    destruct (py_min_spec _ Hne) as (m & -> & Hin & Hlb).
    destruct (py_min_spec _ Hne') as (m' & -> & Hin' & Hlb').
    rewrite Forall_forall in Hlb, Hlb'. f_equal.
    apply (Permutation_in _ H) in Hin.
    apply (Permutation_in _ (Permutation_sym H)) in Hin'.
    specialize (Hlb _ Hin'). specialize (Hlb' _ Hin). lia.
Qed.

Lemma map_same {A B : Type} (f : A -> B) (l l' : list A) :
  Forall2 (fun a a' => f a = f a') l l' -> map f l = map f l'.
Proof.
  induction 1 as [|a a' l l' Hf _ IH]; cbn [map]; [reflexivity|].
  now rewrite Hf, IH.
Qed.

Lemma mapM_same {A B : Type} (f : A -> result B) (l l' : list A) :
  Forall2 (fun a a' => f a = f a') l l' -> mapM f l = mapM f l'.
Proof.
  induction 1 as [|a a' l l' Hf _ IH]; cbn [mapM]; [reflexivity|].
  now rewrite Hf, IH.
Qed.

(** X10. The statistics do not depend on the order in which the numbers are
    listed inside each draw. *)
Theorem stats_ignore_order_in_draw (draws draws' : list Draw) :
  Forall2 (fun d d' => Permutation (numbers d) (numbers d')) draws draws' ->
  calculate_additional_stats draws = calculate_additional_stats draws'.
Proof.
  intros H.
  assert (Hsum : map (fun d => py_sum (numbers d)) draws =
                 map (fun d => py_sum (numbers d)) draws').
  { apply map_same. eapply Forall2_impl; [|exact H].
    intros d d' Hp. now apply py_sum_perm. }
  assert (Hodd : map odd_count draws = map odd_count draws').
  { apply map_same. eapply Forall2_impl; [|exact H].
    intros d d' Hp. unfold odd_count. now apply count_perm. }
  assert (Hhigh : map high_count draws = map high_count draws').
  { apply map_same. eapply Forall2_impl; [|exact H].
    intros d d' Hp. unfold high_count. now apply count_perm. }
  assert (Hcons : map consecutive_pairs draws = map consecutive_pairs draws').
  { apply map_same. eapply Forall2_impl; [|exact H].
    intros d d' Hp. unfold consecutive_pairs. now rewrite (sorted_of_perm _ _ Hp). }
  assert (Hrange : mapM draw_range draws = mapM draw_range draws').
  { apply mapM_same. eapply Forall2_impl; [|exact H].
    intros d d' Hp. unfold draw_range.
    now rewrite (py_max_perm _ _ Hp), (py_min_perm _ _ Hp). }
  destruct H as [|d d' ds ds' _ _]; [reflexivity|].
  unfold calculate_additional_stats. cbv beta iota zeta.
  now rewrite Hsum, Hodd, Hhigh, Hcons, Hrange.
Qed.

Lemma stats_ignore_order_in_draw_witness :
  Forall2 (fun d d' => Permutation (numbers d) (numbers d'))
          [ascending_draw] [descending_draw]
  /\ calculate_additional_stats [ascending_draw] =
     calculate_additional_stats [descending_draw].
Proof.
  assert (H : Forall2 (fun d d' => Permutation (numbers d) (numbers d'))
                      [ascending_draw] [descending_draw]).
  { constructor; [|constructor].
    change (Permutation (rev (numbers descending_draw)) (numbers descending_draw)).
    apply Permutation_sym, Permutation_rev. }
  split; [exact H|].
  exact (stats_ignore_order_in_draw [ascending_draw] [descending_draw] H).
Defined.

(** ** Deviations and frequencies *)

Lemma deviation_formula_le (e x y : Q) :
  (0 < e)%Q ->
  ((x - e) / e * inject_Z 100 <= (y - e) / e * inject_Z 100 <-> x <= y)%Q.
Proof.
  intros He. unfold Qdiv, Qminus.
  rewrite Qmult_le_r by reflexivity.
  rewrite Qmult_le_r by now apply Qinv_lt_0_compat.
  apply Qplus_le_l.
Qed.

Lemma deviation_formula_lt (e x y : Q) :
  (0 < e)%Q ->
  ((x - e) / e * inject_Z 100 < (y - e) / e * inject_Z 100 <-> x < y)%Q.
Proof.
  intros He. unfold Qdiv, Qminus.
  rewrite Qmult_lt_r by reflexivity.
  rewrite Qmult_lt_r by now apply Qinv_lt_0_compat.
  apply Qplus_lt_l.
Qed.

Lemma deviation_formula_at_expected (e : Q) :
  ((e - e) / e * inject_Z 100 == 0)%Q.
Proof.
  unfold Qminus, Qdiv. rewrite Qplus_opp_r, !Qmult_0_l. reflexivity.
Qed.

Lemma expected_freq_lt (total_draws f : Z) :
  (expected_freq total_draws < inject_Z f)%Q <-> total_draws * 7 < 50 * f.
Proof.
  unfold expected_freq, Qlt, Qdiv, Qmult, Qinv, inject_Z. cbn -[Z.mul]. lia.
Qed.

Lemma expected_freq_gt (total_draws f : Z) :
  (inject_Z f < expected_freq total_draws)%Q <-> 50 * f < total_draws * 7.
Proof.
  unfold expected_freq, Qlt, Qdiv, Qmult, Qinv, inject_Z. cbn -[Z.mul]. lia.
Qed.

Lemma scored_row_deviation (freq_df : list FreqRow) (total_draws : Z)
    (r : ScoredRow) :
  In r (add_columns freq_df total_draws) ->
  deviation r =
  ((inject_Z (frequency (base r)) - expected_freq total_draws)
   / expected_freq total_draws * inject_Z 100)%Q.
Proof.
  unfold add_columns. intros H. apply in_map_iff in H as [row [<- _]].
  reflexivity.
Qed.

(** X11. With total_draws >= 1 the deviation of a scored row is positive
    exactly when its frequency exceeds the expected count, that is when
    50 * frequency > 7 * total_draws, and negative exactly when
    50 * frequency < 7 * total_draws. *)
Theorem deviation_sign (freq_df : list FreqRow) (total_draws : Z) :
  1 <= total_draws ->
  Forall (fun r =>
            ((0 < deviation r)%Q <->
             total_draws * 7 < 50 * frequency (base r))
            /\ ((deviation r < 0)%Q <->
                50 * frequency (base r) < total_draws * 7))
         (add_columns freq_df total_draws).
Proof.
  intros Ht. apply Forall_forall. intros r Hr.
  rewrite (scored_row_deviation _ _ _ Hr).
  pose proof (expected_freq_positive total_draws Ht) as He.
  split.
  - rewrite <- (deviation_formula_at_expected (expected_freq total_draws)).
    rewrite (deviation_formula_lt _ _ _ He). apply expected_freq_lt.
  - rewrite <- (deviation_formula_at_expected (expected_freq total_draws)).
    rewrite (deviation_formula_lt _ _ _ He). apply expected_freq_gt.
Qed.

Lemma deviation_sign_witness :
  1 <= 10
  /\ Forall (fun r =>
               ((0 < deviation r)%Q <-> 10 * 7 < 50 * frequency (base r))
               /\ ((deviation r < 0)%Q <-> 50 * frequency (base r) < 10 * 7))
            (add_columns [mkFreqRow 3 2; mkFreqRow 9 1] 10).
Proof.
  assert (Ht : 1 <= 10) by lia.
  split; [exact Ht|].
  exact (deviation_sign [mkFreqRow 3 2; mkFreqRow 9 1] 10 Ht).
Defined.

Lemma strongly_sorted_impl_in {A : Type} (R R' : A -> A -> Prop) (l : list A) :
  (forall a b, In a l -> In b l -> R a b -> R' a b) ->
  StronglySorted R l -> StronglySorted R' l.
Proof.
  intros H Hs. induction Hs as [|x t Hs IH Hx]; constructor.
  - apply IH. intros a b Ha Hb. apply H; now right.
  - rewrite Forall_forall in Hx |- *. intros y Hy.
    apply H; [now left|now right|now apply Hx].
Qed.

Lemma scored_ranking_by_frequency (ascending : bool) (freq_df : list FreqRow)
    (total_draws : Z) :
  1 <= total_draws ->
  StronglySorted
    (fun a b => if ascending then frequency (base a) <= frequency (base b)
                else frequency (base b) <= frequency (base a))
    (sort_values Qle_bool deviation ascending (add_columns freq_df total_draws)).
Proof.
  intros Ht.
  pose proof (expected_freq_positive total_draws Ht) as He.
  destruct (deviation_ranking ascending (add_columns freq_df total_draws))
    as (Hp & Hs).
  eapply strongly_sorted_impl_in; [|exact Hs].
  intros a b Ha Hb.
  apply (Permutation_in _ (Permutation_sym Hp)) in Ha, Hb.
  destruct ascending;
    rewrite (scored_row_deviation _ _ _ Ha), (scored_row_deviation _ _ _ Hb),
            (deviation_formula_le _ _ _ He), <- Zle_Qle; auto.
Qed.

(** X12. With total_draws >= 1 and the deviations taken as exact quotients
    (over doubles two close counts can round to one deviation when the
    numbers are very large, and are then ranked either way), the hot list is
    the first 10 rows of the whole scored table ranked by frequency, highest
    first, and the cold list the first 10 rows of it ranked by frequency,
    lowest first; each holds min(10, number of rows) rows. *)
Theorem hot_cold_rank_by_frequency (freq_df : list FreqRow) (total_draws : Z)
    (p : string) :
  1 <= total_draws ->
  (exists ranked,
     Permutation (add_columns freq_df total_draws) ranked
     /\ StronglySorted
          (fun a b => frequency (base b) <= frequency (base a)) ranked
     /\ hot (find_hot_cold_numbers freq_df total_draws p) =
        head HOT_COLD_TOP_N ranked)
  /\ (exists ranked,
        Permutation (add_columns freq_df total_draws) ranked
        /\ StronglySorted
             (fun a b => frequency (base a) <= frequency (base b)) ranked
        /\ cold (find_hot_cold_numbers freq_df total_draws p) =
           head HOT_COLD_TOP_N ranked)
  /\ List.length (hot (find_hot_cold_numbers freq_df total_draws p)) =
     Nat.min HOT_COLD_TOP_N (List.length freq_df)
  /\ List.length (cold (find_hot_cold_numbers freq_df total_draws p)) =
     Nat.min HOT_COLD_TOP_N (List.length freq_df).
Proof.
  intros Ht. split; [|split; [|split]].
  - eexists. split; [apply (sort_values_perm Qle_bool deviation false)|].
    split; [exact (scored_ranking_by_frequency false freq_df total_draws Ht)|].
    reflexivity.
  - eexists. split; [apply (sort_values_perm Qle_bool deviation true)|].
    split; [exact (scored_ranking_by_frequency true freq_df total_draws Ht)|].
    reflexivity.
  - cbn [find_hot_cold_numbers hot]. unfold head. rewrite length_firstn.
    rewrite <- (Permutation_length (sort_values_perm Qle_bool deviation false _)).
    now rewrite add_columns_length.
  - cbn [find_hot_cold_numbers cold]. unfold head. rewrite length_firstn.
    rewrite <- (Permutation_length (sort_values_perm Qle_bool deviation true _)).
    now rewrite add_columns_length.
Qed.

Lemma hot_cold_rank_by_frequency_witness :
  1 <= 2
  /\ List.length
       (hot (find_hot_cold_numbers
               (main (analyze_frequency [spec_draw; ascending_draw])) 2 "all time"))
     = 10%nat.
Proof.
  assert (Ht : 1 <= 2) by lia.
  split; [exact Ht|].
  exact (proj1 (proj2 (proj2
           (hot_cold_rank_by_frequency
              (main (analyze_frequency [spec_draw; ascending_draw])) 2 "all time" Ht)))).
Defined.

Lemma deviation_column_sum (freq_df : list FreqRow) (total_draws : Z) :
  ~ (expected_freq total_draws == 0)%Q ->
  (q_sum (map deviation (add_columns freq_df total_draws)) ==
   (inject_Z (py_sum (map frequency freq_df))
    - inject_Z (len freq_df) * expected_freq total_draws)
   / expected_freq total_draws * inject_Z 100)%Q.
Proof.
  intros He. induction freq_df as [|row t IH].
  - cbn [add_columns map q_sum fold_right]. rewrite py_sum_nil.
    unfold len. cbn [List.length Z.of_nat]. field. exact He.
  - cbn [add_columns map q_sum fold_right deviation].
    fold (add_columns t total_draws). fold (q_sum (map deviation (add_columns t total_draws))).
    rewrite IH, py_sum_cons, len_cons, !inject_Z_plus. field. exact He.
Qed.

(** X13. When the frequency table has a row for each of the POOL_SIZE numbers
    and its counts add up to DRAW_SIZE * total_draws (as they do for the
    table of total_draws well-formed draws), the deviations of the scored
    table add up to zero. *)
Theorem deviations_cancel_on_full_table (freq_df : list FreqRow)
    (total_draws : Z) :
  1 <= total_draws ->
  len freq_df = POOL_SIZE ->
  py_sum (map frequency freq_df) = total_draws * DRAW_SIZE ->
  (q_sum (map deviation (add_columns freq_df total_draws)) == 0)%Q.
Proof.
  intros Ht Hlen Hsum.
  assert (He : ~ (expected_freq total_draws == 0)%Q).
  { intros E. pose proof (expected_freq_positive total_draws Ht) as H.
    rewrite E in H. discriminate H. }
  rewrite (deviation_column_sum _ _ He), Hlen, Hsum.
  unfold expected_freq, DRAW_SIZE, POOL_SIZE in *.
  rewrite !inject_Z_mult. field.
  intros E. apply He.
  unfold Qeq in *. cbn -[Z.mul] in *. lia.
Qed.

Lemma deviations_cancel_on_full_table_witness :
  1 <= 8
  /\ len (main (analyze_frequency covering_draws)) = POOL_SIZE
  /\ py_sum (map frequency (main (analyze_frequency covering_draws))) = 8 * DRAW_SIZE
  /\ (q_sum (map deviation
               (add_columns (main (analyze_frequency covering_draws)) 8)) == 0)%Q.
Proof.
  assert (Ht : 1 <= 8) by lia.
  assert (Hlen : len (main (analyze_frequency covering_draws)) = POOL_SIZE)
    by reflexivity.
  assert (Hsum : py_sum (map frequency (main (analyze_frequency covering_draws)))
                 = 8 * DRAW_SIZE) by reflexivity.
  split; [exact Ht|]. split; [exact Hlen|]. split; [exact Hsum|].
  exact (deviations_cancel_on_full_table _ 8 Ht Hlen Hsum).
Defined.

(** ** Entries of the gap tracker *)

(** The scan from index [i] with a previous appearance before [i], if any:
    it appends one gap of at least 1 per appearance after the first known
    one, and the gaps add up to the distance from the first to the last
    appearance. *)
Lemma scan_gaps_spec (num : Z) (ds : list Draw) :
  forall (i : Z) (ls : option Z) (gaps : list Z),
  (forall l, ls = Some l -> l < i) ->
  exists new,
    snd (scan_gaps num ds i ls gaps) = gaps ++ new
    /\ Forall (fun g => 1 <= g) new
    /\ match ls with
       | Some l =>
           len new = len (filter (fun d => existsb (Z.eqb num) (numbers d)) ds)
           /\ exists l', fst (scan_gaps num ds i ls gaps) = Some l'
                /\ l <= l' < i + len ds /\ py_sum new = l' - l
       | None =>
           len new =
           Z.max 0 (len (filter (fun d => existsb (Z.eqb num) (numbers d)) ds) - 1)
           /\ (len (filter (fun d => existsb (Z.eqb num) (numbers d)) ds) = 0 ->
               fst (scan_gaps num ds i ls gaps) = None)
           /\ (1 <= len (filter (fun d => existsb (Z.eqb num) (numbers d)) ds) ->
               exists first l', fst (scan_gaps num ds i ls gaps) = Some l'
                 /\ i <= first <= l' /\ l' < i + len ds
                 /\ py_sum new = l' - first)
       end.
Proof.
  induction ds as [|d ds IH]; intros i ls gaps Hls; cbn [scan_gaps filter].
  - exists []. rewrite app_nil_r. split; [reflexivity|]. split; [constructor|].
    destruct ls as [l|].
    + split; [reflexivity|]. exists l. specialize (Hls l eq_refl).
      unfold len. cbn. repeat split; try lia. 
    + unfold len. cbn. repeat split; try lia.
  - assert (Hpos : 0 <= len (filter (fun d => existsb (Z.eqb num) (numbers d)) ds))
      by (unfold len; lia).
    destruct (existsb (Z.eqb num) (numbers d)) eqn:E.
    + destruct (IH (i + 1) (Some i)
                  (match ls with Some l => gaps ++ [i - l] | None => gaps end))
        as (new' & Hsnd & Hall & Hlen & l' & Hfst & Hl' & Hsum).
      { intros l [= <-]. lia. }
      rewrite !len_cons. destruct ls as [l|].
      * specialize (Hls l eq_refl).
        exists ((i - l) :: new'). rewrite Hsnd, <- app_assoc. cbn [app].
        split; [reflexivity|]. split; [constructor; [lia|exact Hall]|].
        rewrite len_cons, py_sum_cons. split; [lia|].
        exists l'. repeat split; try assumption; lia.
      * exists new'. split; [exact Hsnd|]. split; [exact Hall|].
        split; [lia|]. split; [lia|]. intros _.
        exists i, l'. repeat split; try assumption; lia.
    + destruct (IH (i + 1) ls gaps) as (new' & Hsnd & Hall & Hrest).
      { intros l Hl. specialize (Hls l Hl). lia. }
      rewrite len_cons. exists new'. split; [exact Hsnd|]. split; [exact Hall|].
      destruct ls as [l|].
      * destruct Hrest as (Hlen & l' & Hfst & Hl' & Hsum).
        split; [exact Hlen|]. exists l'. repeat split; try assumption; lia.
      * destruct Hrest as (Hlen & H0 & H1).
        split; [exact Hlen|]. split; [exact H0|]. intros Hc.
        destruct (H1 Hc) as (first & l' & Hfst & Hf & Hl' & Hsum).
        exists first, l'. repeat split; try assumption; lia.
Qed.

Lemma element_le_sum (l : list Z) (x : Z) :
  Forall (fun g => 1 <= g) l -> In x l -> 1 <= x <= py_sum l /\ len l <= py_sum l.
Proof.
  induction 1 as [|y l Hy Hl IH]; intros Hin; [destruct Hin|].
  rewrite py_sum_cons, len_cons.
  assert (Hs : len l <= py_sum l).
  { clear IH Hin. induction Hl as [|z l Hz _ IH'].
    - rewrite py_sum_nil. unfold len. cbn. lia.
    - rewrite py_sum_cons, len_cons. lia. }
  assert (0 <= len l) by (unfold len; lia).
  destruct Hin as [->|Hin]; [lia|]. specialize (IH Hin). lia.
Qed.

Lemma appearances_sorted (num : Z) (draws : list Draw) :
  len (filter (fun d => existsb (Z.eqb num) (numbers d)) (sorted_by_date draws)) =
  len (filter (fun d => existsb (Z.eqb num) (numbers d)) draws).
Proof.
  unfold len, sorted_by_date. f_equal.
  apply Permutation_length, filter_perm, Permutation_sym, sorted_by_perm.
Qed.

Lemma len_sorted_by_date (draws : list Draw) :
  len (sorted_by_date draws) = len draws.
Proof.
  unfold len, sorted_by_date. f_equal.
  apply Permutation_length, Permutation_sym, sorted_by_perm.
Qed.

(** The entry computed for one number: none below two appearances; from two
    appearances on, a record whose fields are within the history. *)
Lemma gap_entry_spec (draws : list Draw) (num : Z) :
  (len (filter (fun d => existsb (Z.eqb num) (numbers d)) draws) <= 1 ->
   gap_entry draws num = Ok None)
  /\ (2 <= len (filter (fun d => existsb (Z.eqb num) (numbers d)) draws) ->
      exists g cur,
        gap_entry draws num = Ok (Some g)
        /\ current_gap g = Some cur
        /\ 1 <= cur <= len draws - 1
        /\ 1 <= max_gap g <= len draws - 1
        /\ (inject_Z 1 <= avg_gap g <= inject_Z (max_gap g))%Q).
Proof.
  unfold gap_entry, gaps_of.
  destruct (scan_gaps_spec num (sorted_by_date draws) 0 None [])
    as (new & Hsnd & Hall & Hlen & H0 & H1); [discriminate|].
  rewrite appearances_sorted in Hlen, H0, H1. rewrite len_sorted_by_date in H1.
  cbn [app] in Hsnd.
  destruct (scan_gaps num (sorted_by_date draws) 0 None []) as [ls gaps].
  cbn [fst snd] in *. subst gaps.
  split; intros Hc.
  - destruct new as [|g gs]; [reflexivity|]. rewrite len_cons in Hlen.
    assert (0 <= len gs) by (unfold len; lia). lia.
  - assert (Hl1 : 1 <= len new) by lia.
    destruct new as [|g0 gs]; [unfold len in Hl1; cbn in Hl1; lia|].
    cbv beta iota. remember (g0 :: gs) as new eqn:En.
    assert (Hne : new <> []) by (rewrite En; discriminate).
    destruct (H1 ltac:(lia)) as (first & l' & -> & Hf & Hl' & Hsum).
    rewrite py_truediv_ok by now apply len_nonzero.
    destruct (py_max_spec new Hne) as (mx & Hmx & Hin & Hub).
    rewrite Hmx. cbn [bind].
    destruct (element_le_sum new mx Hall Hin) as [Hmx1 Hlensum].
    eexists. exists (len draws - l'). split; [reflexivity|].
    cbn [current_gap max_gap avg_gap].
    pose proof (len_positive new Hne) as Hpos.
    split; [reflexivity|]. split; [lia|]. split; [lia|].
    apply average_between; [exact Hpos|].
    apply sum_between. rewrite Forall_forall in Hall, Hub |- *.
    intros x Hx. split; [now apply Hall|now apply Hub].
Qed.

Lemma find_patterns_lookup (draws : list Draw) :
  exists patterns, find_patterns draws = Ok patterns
    /\ forall num,
         gaps_get num (number_gaps patterns) =
         if existsb (Z.eqb num) pool then
           match gap_entry draws num with
           | Ok e => e
           | Raise _ => None
           end
         else None.
Proof.
  unfold find_patterns.
  destruct (fill_number_gaps_spec draws pool []) as (r & Hr & Hget).
  rewrite Hr. cbn [bind]. eexists. split; [reflexivity|].
  intros num. cbn [number_gaps]. now rewrite Hget.
Qed.

Lemma pool_existsb (num : Z) :
  existsb (Z.eqb num) pool = true <-> 1 <= num <= POOL_SIZE.
Proof.
  rewrite <- pool_spec. split.
  - intros H. apply existsb_exists in H as [x [Hx E]].
    apply Z.eqb_eq in E. now subst.
  - apply existsb_eqb_true.
Qed.

(** X14. [find_patterns] never raises, whatever the draws, and its result
    has an entry for a number exactly when the number is in 1..POOL_SIZE and
    occurs in at least two draws: numbers drawn once or never are left
    out. *)
Theorem gap_entries_need_two_appearances (draws : list Draw) :
  exists patterns, find_patterns draws = Ok patterns
    /\ forall num,
         (exists g, gaps_get num (number_gaps patterns) = Some g) <->
         (1 <= num <= POOL_SIZE
          /\ 2 <= len (filter (fun d => existsb (Z.eqb num) (numbers d)) draws)).
Proof.
  destruct (find_patterns_lookup draws) as (patterns & Hp & Hget).
  exists patterns. split; [exact Hp|]. intros num. rewrite Hget.
  destruct (gap_entry_spec draws num) as [Hfew Hmany].
  destruct (existsb (Z.eqb num) pool) eqn:E.
  - apply pool_existsb in E. split.
    + intros [g Hg]. split; [exact E|].
      destruct (Z_le_gt_dec
                  (len (filter (fun d => existsb (Z.eqb num) (numbers d)) draws)) 1)
        as [Hc|Hc]; [|lia].
      rewrite (Hfew Hc) in Hg. discriminate.
    + intros [_ Hc]. destruct (Hmany Hc) as (g & cur & -> & _). now exists g.
  - split; [intros [g Hg]; discriminate|].
    intros [Hnum _]. apply pool_existsb in Hnum. congruence.
Qed.

(** X15. Every entry of the gap tracker's result has a current gap (it is
    never None) between 1 and len(draws) - 1, a max_gap between 1 and
    len(draws) - 1, and an avg_gap between 1 and max_gap. *)
Theorem gap_entry_within_history (draws : list Draw) (patterns : Patterns)
    (num : Z) (g : GapRecord) :
  find_patterns draws = Ok patterns ->
  gaps_get num (number_gaps patterns) = Some g ->
  exists cur,
    current_gap g = Some cur
    /\ 1 <= cur <= len draws - 1
    /\ 1 <= max_gap g <= len draws - 1
    /\ (inject_Z 1 <= avg_gap g <= inject_Z (max_gap g))%Q.
Proof.
  intros Hp Hg.
  destruct (find_patterns_lookup draws) as (patterns' & Hp' & Hget).
  assert (patterns' = patterns) by congruence. subst patterns'.
  rewrite Hget in Hg.
  destruct (existsb (Z.eqb num) pool); [|discriminate].
  destruct (gap_entry_spec draws num) as [Hfew Hmany].
  destruct (Z_le_gt_dec
              (len (filter (fun d => existsb (Z.eqb num) (numbers d)) draws)) 1)
    as [Hc|Hc].
  - rewrite (Hfew Hc) in Hg. discriminate.
  - destruct (Hmany ltac:(lia)) as (g' & cur & Hg' & Hcur & Hb1 & Hb2 & Hb3).
    rewrite Hg' in Hg. injection Hg as ->. now exists cur.
Qed.

Lemma gap_entry_within_history_witness :
  find_patterns gap_draws = Ok gap_draws_patterns
  /\ gaps_get 5 (number_gaps gap_draws_patterns) =
     Some (mkGapRecord (7 # 2) 4 (Some 1))
  /\ exists cur,
       current_gap (mkGapRecord (7 # 2) 4 (Some 1)) = Some cur
       /\ 1 <= cur <= len gap_draws - 1.
Proof.
  assert (Hp : find_patterns gap_draws = Ok gap_draws_patterns)
    by (vm_compute; reflexivity).
  assert (Hg : gaps_get 5 (number_gaps gap_draws_patterns) =
               Some (mkGapRecord (7 # 2) 4 (Some 1)))
    by (vm_compute; reflexivity).
  split; [exact Hp|]. split; [exact Hg|].
  destruct (gap_entry_within_history gap_draws gap_draws_patterns 5
              (mkGapRecord (7 # 2) 4 (Some 1)) Hp Hg)
    as (cur & Hcur & Hb & _).
  exists cur. split; assumption.
Defined.

(** ** Chronological order *)

Lemma string_leb_trans (a b c : string) :
  String.leb a b = true -> String.leb b c = true -> String.leb a c = true.
Proof.
  unfold String.leb. revert b c.
  induction a as [|x a IH]; intros [|y b] [|z c]; cbn [String.compare];
    try reflexivity; try discriminate.
  unfold Ascii.compare.
  destruct (N.compare_spec (Ascii.N_of_ascii x) (Ascii.N_of_ascii y)) as [E1|E1|E1];
    destruct (N.compare_spec (Ascii.N_of_ascii y) (Ascii.N_of_ascii z)) as [E2|E2|E2];
    destruct (N.compare_spec (Ascii.N_of_ascii x) (Ascii.N_of_ascii z)) as [E3|E3|E3];
    try reflexivity; try discriminate; try lia.
  apply IH.
Qed.

Lemma string_leb_total (a b : string) :
  String.leb a b = false -> String.leb b a = true.
Proof.
  intros H. destruct (String.leb_total a b) as [H'|H']; congruence.
Qed.

Lemma nodup_map_injective {A B : Type} (f : A -> B) (l : list A) (a b : A) :
  NoDup (map f l) -> In a l -> In b l -> f a = f b -> a = b.
Proof.
  induction l as [|x l IH]; cbn [map]; intros Hnd Ha Hb E; [destruct Ha|].
  inversion Hnd as [|? ? Hx Hl]; subst.
  destruct Ha as [->|Ha], Hb as [->|Hb]; auto.
  - exfalso. apply Hx. rewrite E. now apply in_map.
  - exfalso. apply Hx. rewrite <- E. now apply in_map.
Qed.

Section SortUnique.
Context {A K : Type}.
Variable leb : K -> K -> bool.
Variable key : A -> K.
Hypothesis leb_trans :
  forall a b c, leb a b = true -> leb b c = true -> leb a c = true.
Hypothesis leb_total : forall a b, leb a b = false -> leb b a = true.
Hypothesis leb_antisym : forall a b, leb a b = true -> leb b a = true -> a = b.

(** A list with pairwise distinct keys has one arrangement in key order. *)
Lemma key_sorted_unique (s s' : list A) :
  StronglySorted (key_le leb key) s -> StronglySorted (key_le leb key) s' ->
  Permutation s s' -> NoDup (map key s) -> s = s'.
Proof.
  intros Hs. revert s'. induction Hs as [|x t Hst IH Hx]; intros s' Hs' Hp Hnd.
  - apply Permutation_nil in Hp. now subst.
  - destruct Hs' as [|y t' Hst' Hy].
    + apply Permutation_sym, Permutation_nil in Hp. discriminate.
    + assert (Hyin : In y (x :: t))
        by (apply (Permutation_in _ (Permutation_sym Hp)); now left).
      assert (Hxin : In x (y :: t')) by (apply (Permutation_in _ Hp); now left).
      assert (x = y).
      { destruct Hyin as [|Hyin]; [assumption|].
        destruct Hxin as [|Hxin]; [congruence|].
        rewrite Forall_forall in Hx, Hy.
        apply (nodup_map_injective key (x :: t)); auto; [now left|now right|].
        apply leb_antisym; [now apply Hx|now apply Hy]. }
      subst y. f_equal. apply IH; [exact Hst'| |].
      * eapply Permutation_cons_inv; exact Hp.
      * cbn [map] in Hnd. now inversion Hnd.
Qed.

Lemma sorted_by_unique (l l' : list A) :
  Permutation l l' -> NoDup (map key l) ->
  sorted_by leb key l = sorted_by leb key l'.
Proof.
  intros Hp Hnd. apply key_sorted_unique.
  - now apply sorted_by_sorted.
  - now apply sorted_by_sorted.
  - eapply perm_trans; [apply Permutation_sym, sorted_by_perm|].
    eapply perm_trans; [exact Hp|apply sorted_by_perm].
  - eapply Permutation_NoDup; [|exact Hnd].
    apply Permutation_map, sorted_by_perm.
Qed.
End SortUnique.

Lemma gap_entry_perm (draws draws' : list Draw) (num : Z) :
  Permutation draws draws' -> NoDup (map date draws) ->
  gap_entry draws num = gap_entry draws' num.
Proof.
  intros Hp Hnd. unfold gap_entry, gaps_of, sorted_by_date.
  rewrite (sorted_by_unique String.leb date string_leb_trans string_leb_total
             String.leb_antisym draws draws' Hp Hnd).
  unfold len. now rewrite (Permutation_length Hp).
Qed.

(** X16. When the draws carry pairwise distinct dates, the result of
    [find_patterns] does not depend on the order in which they are passed:
    the function sorts by date itself. *)
Theorem gap_tracker_ignores_input_order (draws draws' : list Draw) :
  Permutation draws draws' ->
  NoDup (map date draws) ->
  find_patterns draws = find_patterns draws'.
Proof.
  intros Hp Hnd. unfold find_patterns. f_equal.
  generalize (@nil (Z * GapRecord)).
  induction pool as [|num rest IH]; intros acc; cbn [fill_number_gaps];
    [reflexivity|].
  rewrite (gap_entry_perm draws draws' num Hp Hnd).
  destruct (gap_entry draws' num); cbn [bind]; [apply IH|reflexivity].
Qed.

Lemma gap_tracker_ignores_input_order_witness :
  Permutation gap_draws (rev gap_draws)
  /\ NoDup (map date gap_draws)
  /\ find_patterns gap_draws = find_patterns (rev gap_draws).
Proof.
  assert (Hp : Permutation gap_draws (rev gap_draws)) by apply Permutation_rev.
  assert (Hnd : NoDup (map date gap_draws)).
  { cbn. repeat (constructor; [cbn; intuition discriminate|]). constructor. }
  split; [exact Hp|]. split; [exact Hnd|].
  exact (gap_tracker_ignores_input_order gap_draws (rev gap_draws) Hp Hnd).
Defined.

(** ** Per-number counts by year *)

Lemma freq_get_fold_absent (n : Z) (df : list FreqRow) (acc : Z) :
  ~ In n (map number df) ->
  fold_left (fun a row => if number row =? n then frequency row else a) df acc = acc.
Proof.
  revert acc. induction df as [|row df IH]; intros acc H; cbn [fold_left];
    [reflexivity|].
  cbn [map In] in H. destruct (number row =? n) eqn:E.
  - apply Z.eqb_eq in E. tauto.
  - apply IH. tauto.
Qed.

Lemma freq_get_absent (n : Z) (df : list FreqRow) :
  ~ In n (map number df) -> freq_get n df = 0.
Proof. apply freq_get_fold_absent. Qed.

Lemma freq_get_present (row : FreqRow) (df : list FreqRow) :
  NoDup (map number df) -> In row df -> freq_get (number row) df = frequency row.
Proof.
  intros Hnd Hin. apply in_split in Hin as (l1 & l2 & ->).
  rewrite map_app in Hnd. cbn [map] in Hnd.
  pose proof (NoDup_remove_2 _ _ _ Hnd) as Hn.
  unfold freq_get. rewrite fold_left_app. cbn [fold_left].
  rewrite Z.eqb_refl. apply freq_get_fold_absent.
  intros H. apply Hn, in_or_app. now right.
Qed.

Lemma count_of_absent (n : Z) (l : list Z) :
  ~ In n l -> count_of Z.eqb n l = 0.
Proof.
  intros H. unfold count_of.
  replace (filter (Z.eqb n) l) with (@nil Z); [reflexivity|].
  symmetry. induction l as [|x l IH]; [reflexivity|].
  cbn [filter]. cbn [In] in H. destruct (n =? x) eqn:E.
  - apply Z.eqb_eq in E. subst. tauto.
  - apply IH. tauto.
Qed.

(** The table read as a dict gives, for any number, its count in the draws. *)
Lemma freq_get_table (draws : list Draw) (n : Z) :
  freq_get n (main (analyze_frequency draws)) =
  count_of Z.eqb n (flat_map numbers draws).
Proof.
  destruct (in_dec Z.eq_dec n (map number (main (analyze_frequency draws))))
    as [Hin|Hout].
  - apply in_map_iff in Hin as [row [<- Hrow]].
    rewrite (freq_get_present row _ (number_column_nodup draws) Hrow).
    pose proof (frequency_rows_hold_counts draws) as H.
    rewrite Forall_forall in H. now apply H.
  - rewrite (freq_get_absent _ _ Hout). symmetry. apply count_of_absent.
    intros H. apply Hout. apply number_column_spec.
    now apply in_flat_map in H.
Qed.

(** X1. Every row of the frequency table holds the number of times its number
    occurs in the draws, repeats within a draw included, and a number without
    a row occurs in no draw. *)
Theorem frequency_is_occurrence_count (draws : list Draw) :
  Forall (fun row =>
            frequency row =
            count_of Z.eqb (number row) (flat_map numbers draws))
         (main (analyze_frequency draws))
  /\ forall n, ~ In n (map number (main (analyze_frequency draws))) ->
               count_of Z.eqb n (flat_map numbers draws) = 0.
Proof.
  split; [apply frequency_rows_hold_counts|].
  intros n Hn. apply count_of_absent. intros H.
  apply Hn, number_column_spec. now apply in_flat_map in H.
Qed.

Lemma count_of_flat_map (n : Z) (ds : list Draw) :
  count_of Z.eqb n (flat_map numbers ds) =
  py_sum (map (fun d => count_of Z.eqb n (numbers d)) ds).
Proof.
  unfold count_of. induction ds as [|d ds IH]; cbn [flat_map map].
  - reflexivity.
  - rewrite filter_app, len_app, py_sum_cons, IH. reflexivity.
Qed.

Lemma group_append_weight (w : Draw -> Z) (d : Draw) (g : list (Z * list Draw)) :
  py_sum (map (fun kv => py_sum (map w (snd kv))) (group_append (year d) d g)) =
  py_sum (map (fun kv => py_sum (map w (snd kv))) g) + w d.
Proof.
  induction g as [|[y' ds] t IH]; cbn [group_append map snd].
  - rewrite !py_sum_cons, !py_sum_nil. lia.
  - destruct (year d =? y'); cbn [map snd]; rewrite !py_sum_cons.
    + rewrite map_app, py_sum_app. cbn [map]. rewrite py_sum_cons, py_sum_nil. lia.
    + rewrite IH. lia.
Qed.

Lemma draws_by_year_weight (w : Draw -> Z) (draws : list Draw) :
  py_sum (map (fun kv => py_sum (map w (snd kv))) (draws_by_year draws)) =
  py_sum (map w draws).
Proof.
  unfold draws_by_year.
  assert (H : forall g,
            py_sum (map (fun kv => py_sum (map w (snd kv)))
                        (fold_left (fun g d => group_append (year d) d g) draws g)) =
            py_sum (map (fun kv => py_sum (map w (snd kv))) g) + py_sum (map w draws)).
  { induction draws as [|d draws IH]; intros g; cbn [fold_left map].
    - rewrite py_sum_nil. lia.
    - rewrite IH, group_append_weight, py_sum_cons. lia. }
  rewrite H. cbn [map]. rewrite py_sum_nil. lia.
Qed.

(** X17. For every number, the counts read from the per-year tables of
    [analyze_by_year] (a number missing from a year's table reading 0, as in
    the heat map of [visualize_data]) add up to its count in the overall
    frequency table. *)
Theorem yearly_counts_add_up_per_number (draws : list Draw) (n : Z) :
  py_sum (map (fun kv => freq_get n (snd kv)) (analyze_by_year draws)) =
  freq_get n (main (analyze_frequency draws)).
Proof.
  unfold analyze_by_year. rewrite map_map. cbn [snd].
  rewrite freq_get_table, count_of_flat_map.
  rewrite <- (draws_by_year_weight (fun d => count_of Z.eqb n (numbers d)) draws).
  f_equal. apply map_ext. intros [y ds]. cbn [snd].
  now rewrite freq_get_table, count_of_flat_map.
Qed.

(** ** Bucket labels *)

Lemma py_str_int_injective (a b : Z) : py_str_int a = py_str_int b -> a = b.
Proof.
  unfold py_str_int. intros H. apply DecimalZ.to_int_inj.
  assert (Hnn : forall n, Z.to_int n <> Decimal.Pos Decimal.Nil /\
                          Z.to_int n <> Decimal.Neg Decimal.Nil).
  { intros [|p|p]; cbn; split; try discriminate; intros [= E];
      now apply DecimalPos.Unsigned.to_uint_nonnil in E. }
  destruct (Hnn a) as [Ha1 Ha2]. destruct (Hnn b) as [Hb1 Hb2].
  pose proof (NilZero.isi _ Ha1 Ha2) as Ea.
  pose proof (NilZero.isi _ Hb1 Hb2) as Eb.
  rewrite H in Ea. congruence.
Qed.

Lemma digits_no_space (u : Decimal.uint) :
  ~ In " "%char (list_ascii_of_string (NilEmpty.string_of_uint u)).
Proof.
  induction u; cbn [NilEmpty.string_of_uint list_ascii_of_string In];
    intuition discriminate.
Qed.

Lemma decimal_no_space (u : Decimal.uint) :
  ~ In " "%char (list_ascii_of_string (NilZero.string_of_uint u)).
Proof.
  destruct u; try apply digits_no_space.
  cbn. intuition discriminate.
Qed.

Lemma py_str_int_no_space (n : Z) :
  ~ In " "%char (list_ascii_of_string (py_str_int n)).
Proof.
  unfold py_str_int, NilZero.string_of_int.
  destruct (Z.to_int n) as [u|u]; [apply decimal_no_space|].
  cbn [list_ascii_of_string In]. intros [E|H]; [discriminate E|].
  now apply decimal_no_space in H.
Qed.

Lemma space_prefix_unique (s1 s2 r1 r2 : string) :
  ~ In " "%char (list_ascii_of_string s1) ->
  ~ In " "%char (list_ascii_of_string s2) ->
  (s1 ++ String " " r1 = s2 ++ String " " r2)%string -> s1 = s2.
Proof.
  revert s2. induction s1 as [|c s1 IH]; intros [|c' s2] H1 H2 E;
    cbn [String.append list_ascii_of_string In] in *.
  - reflexivity.
  - injection E as E _. subst c'. tauto.
  - injection E as E _. subst c. tauto.
  - injection E as -> E. f_equal. apply IH; tauto.
Qed.

Lemma odd_even_label_injective (a b : Z) :
  odd_even_label a = odd_even_label b -> a = b.
Proof.
  intros H. apply py_str_int_injective.
  apply (space_prefix_unique _ _
           ("odd, " ++ py_str_int (7 - a) ++ " even")%string
           ("odd, " ++ py_str_int (7 - b) ++ " even")%string);
    try apply py_str_int_no_space. exact H.
Qed.

Lemma high_low_label_injective (a b : Z) :
  high_low_label a = high_low_label b -> a = b.
Proof.
  intros H. apply py_str_int_injective.
  apply (space_prefix_unique _ _
           ("high, " ++ py_str_int (7 - a) ++ " low")%string
           ("high, " ++ py_str_int (7 - b) ++ " low")%string);
    try apply py_str_int_no_space. exact H.
Qed.

Lemma consecutive_label_injective (a b : Z) :
  consecutive_label a = consecutive_label b -> a = b.
Proof.
  intros H. apply py_str_int_injective.
  apply (space_prefix_unique _ _ "consecutive pairs" "consecutive pairs");
    try apply py_str_int_no_space. exact H.
Qed.

Lemma pair_leb_trans (p q r : Z * Z) :
  pair_leb p q = true -> pair_leb q r = true -> pair_leb p r = true.
Proof.
  unfold pair_leb.
  rewrite !orb_true_iff, !andb_true_iff, !Z.ltb_lt, !Z.eqb_eq, !Z.leb_le. lia.
Qed.

Lemma pair_leb_total (p q : Z * Z) :
  pair_leb p q = false -> pair_leb q p = true.
Proof.
  unfold pair_leb.
  rewrite orb_false_iff, andb_false_iff, orb_true_iff, andb_true_iff,
          !Z.ltb_lt, !Z.ltb_ge, !Z.eqb_eq, Z.eqb_neq, Z.leb_le, Z.leb_gt. lia.
Qed.

Lemma pair_sorted_keys (items : list (Z * Z)) :
  StronglySorted (key_le pair_leb (fun p : Z * Z => p)) items ->
  StronglySorted Z.le (map fst items).
Proof.
  induction 1 as [|x t _ IH Hx]; cbn [map]; constructor; [exact IH|].
  apply Forall_map. eapply Forall_impl; [|exact Hx].
  intros y Hy. unfold key_le, pair_leb in Hy.
  rewrite orb_true_iff, andb_true_iff, Z.ltb_lt, Z.eqb_eq in Hy. lia.
Qed.

Lemma counter_holds_counts (xs : list Z) :
  NoDup (map fst (Counter Z.eqb xs))
  /\ Forall (fun kv => snd kv = count_of Z.eqb (fst kv) xs) (Counter Z.eqb xs)
  /\ forall k, In k (map fst (Counter Z.eqb xs)) <-> In k xs.
Proof.
  unfold Counter.
  assert (Hnd : NoDup (map fst (counter_update Z.eqb [] xs)))
    by (apply (counter_update_nodup Z.eqb Z.eqb_eq); constructor).
  split; [exact Hnd|]. split.
  - apply Forall_forall. intros [k v] Hin. cbn [fst snd].
    rewrite <- (counter_get_in Z.eqb Z.eqb_eq k v _ Hnd Hin).
    now rewrite (counter_update_get Z.eqb Z.eqb_eq).
  - intros k. rewrite (counter_update_keys Z.eqb Z.eqb_eq). cbn. tauto.
Qed.

(** What a distribution dict holds: one bucket per distinct value, in
    ascending order of the value, with the number of occurrences of the
    value. *)
Lemma distribution_buckets (label : Z -> string) (xs : list Z) :
  exists ks,
    StronglySorted Z.lt ks
    /\ (forall k, In k ks <-> In k xs)
    /\ distribution label xs =
       map (fun k => (label k, count_of Z.eqb k xs)) ks.
Proof.
  destruct (counter_holds_counts xs) as (Hnd & Hcounts & Hkeys).
  pose proof (sorted_by_perm pair_leb (fun p : Z * Z => p) (Counter Z.eqb xs)) as Hp.
  pose proof (sorted_by_sorted pair_leb (fun p : Z * Z => p)
                pair_leb_trans pair_leb_total (Counter Z.eqb xs)) as Hs.
  exists (map fst (sorted_items (Counter Z.eqb xs))). unfold sorted_items.
  split; [|split].
  - apply ascending_nodup_strict.
    + now apply pair_sorted_keys.
    + eapply Permutation_NoDup; [apply Permutation_map, Hp|exact Hnd].
  - intros k. rewrite <- Hkeys. split; apply Permutation_in, Permutation_map;
      [apply Permutation_sym, Hp|apply Hp].
  - unfold distribution, sorted_items. rewrite map_map. apply map_ext_in.
    intros [k v] Hin. cbn [fst snd]. f_equal.
    apply (Permutation_in _ (Permutation_sym Hp)) in Hin.
    rewrite Forall_forall in Hcounts. exact (Hcounts _ Hin).
Qed.

Lemma count_of_map (quantity : Draw -> Z) (k : Z) (draws : list Draw) :
  count_of Z.eqb k (map quantity draws) =
  len (filter (fun d => quantity d =? k) draws).
Proof.
  unfold count_of. induction draws as [|d draws IH]; cbn [map filter];
    [reflexivity|].
  rewrite (Z.eqb_sym k (quantity d)).
  destruct (quantity d =? k); [rewrite !len_cons|]; lia.
Qed.

Lemma strictly_ascending_nodup (ks : list Z) :
  StronglySorted Z.lt ks -> NoDup ks.
Proof.
  induction 1 as [|k ks _ IH Hk]; constructor; [|exact IH].
  intros Hin. rewrite Forall_forall in Hk. specialize (Hk _ Hin). lia.
Qed.

(** X18. In the returned statistics each of the three distributions has one
    bucket per value that occurs among the draws, in ascending order of the
    value; the bucket holds the number of draws with that value, and the
    labels of different buckets differ, so no bucket of the dict overwrites
    another. *)
Theorem distributions_bucket_draws (draws : list Draw) :
  draws <> [] ->
  Forall (fun d => numbers d <> []) draws ->
  exists stats,
    calculate_additional_stats draws = Ok stats
    /\ Forall (fun entry =>
         let '(key, label, quantity) := entry in
         exists ks,
           StronglySorted Z.lt ks
           /\ (forall k, In k ks <-> exists d, In d draws /\ quantity d = k)
           /\ NoDup (map label ks)
           /\ stats_get key stats =
              Some (SDict (map (fun k =>
                      (label k, len (filter (fun d => quantity d =? k) draws)))
                    ks)))
         [ ("odd_even_distribution", odd_even_label, odd_count);
           ("high_low_distribution", high_low_label, high_count);
           ("consecutive_pairs_distribution", consecutive_label,
             consecutive_pairs) ].
Proof.
  intros Hne Hall.
  destruct (stats_written_out draws Hne Hall)
    as (mn & mx & ranges & rmn & rmx & _ & _ & _ & _ & _ & _ & _ & ->).
  eexists. split; [reflexivity|].
  assert (Hgen : forall (label : Z -> string) (quantity : Draw -> Z),
            (forall a b, label a = label b -> a = b) ->
            exists ks,
              StronglySorted Z.lt ks
              /\ (forall k, In k ks <-> exists d, In d draws /\ quantity d = k)
              /\ NoDup (map label ks)
              /\ distribution label (map quantity draws) =
                 map (fun k => (label k,
                                len (filter (fun d => quantity d =? k) draws))) ks).
  { intros label quantity Hinj.
    destruct (distribution_buckets label (map quantity draws)) as (ks & Hs & Hk & Hd).
    exists ks. split; [exact Hs|]. split; [|split].
    - intros k. rewrite Hk, in_map_iff. split; intros [d [H1 H2]]; exists d; tauto.
    - apply NoDup_map_NoDup_ForallPairs; [|now apply strictly_ascending_nodup].
      intros a b _ _. apply Hinj.
    - rewrite Hd. apply map_ext. intros k. now rewrite count_of_map. }
  repeat constructor.
  - destruct (Hgen odd_even_label odd_count odd_even_label_injective)
      as (ks & H1 & H2 & H3 & H4).
    exists ks. repeat split; try assumption; try apply H2.
    cbn [stats_get String.eqb Ascii.eqb Bool.eqb]. now rewrite H4.
  - destruct (Hgen high_low_label high_count high_low_label_injective)
      as (ks & H1 & H2 & H3 & H4).
    exists ks. repeat split; try assumption; try apply H2.
    cbn [stats_get String.eqb Ascii.eqb Bool.eqb]. now rewrite H4.
  - destruct (Hgen consecutive_label consecutive_pairs consecutive_label_injective)
      as (ks & H1 & H2 & H3 & H4).
    exists ks. repeat split; try assumption; try apply H2.
    cbn [stats_get String.eqb Ascii.eqb Bool.eqb]. now rewrite H4.
Qed.

Lemma distributions_bucket_draws_witness :
  [spec_draw; ascending_draw] <> []
  /\ Forall (fun d => numbers d <> []) [spec_draw; ascending_draw]
  /\ exists stats,
       calculate_additional_stats [spec_draw; ascending_draw] = Ok stats
       /\ stats_get "odd_even_distribution" stats =
          Some (SDict [("2 odd, 5 even", 1); ("4 odd, 3 even", 1)]).
Proof.
  assert (Hne : [spec_draw; ascending_draw] <> []) by discriminate.
  assert (Hall : Forall (fun d => numbers d <> []) [spec_draw; ascending_draw])
    by (repeat constructor; discriminate).
  split; [exact Hne|]. split; [exact Hall|].
  destruct (distributions_bucket_draws _ Hne Hall) as (stats & Hs & _).
  exists stats. split; [exact Hs|].
  assert (E : Ok stats = calculate_additional_stats [spec_draw; ascending_draw])
    by (symmetry; exact Hs).
  vm_compute in E. injection E as ->. reflexivity.
Defined.

(** ** When hot and cold cannot overlap *)

Lemma head_rank_count {A : Type} (key : A -> Z) (l : list A) (r : A) (n : nat) :
  StronglySorted (fun a b => key b <= key a) l ->
  In r (head n l) ->
  len (filter (fun x => key r <? key x) l) <= Z.of_nat n - 1.
Proof.
  unfold head. intros Hs. revert n.
  induction Hs as [|x t Hst IH Hx]; intros [|n'] Hin; cbn [firstn] in Hin;
    try destruct Hin.
  - subst x. cbn [filter]. rewrite Z.ltb_irrefl.
    replace (filter (fun x => key r <? key x) t) with (@nil A).
    + change (len (@nil A)) with 0. lia.
    + symmetry. clear IH Hst. induction Hx as [|y t Hy _ IH']; [reflexivity|].
      cbn [filter]. replace (key r <? key y) with false; [exact IH'|].
      symmetry. apply Z.ltb_ge. exact Hy.
  - specialize (IH n' H). cbn [filter].
    destruct (key r <? key x); [rewrite len_cons|]; lia.
Qed.

Lemma len_filter_perm {A : Type} (f : A -> bool) (l l' : list A) :
  Permutation l l' -> len (filter f l) = len (filter f l').
Proof.
  intros H. unfold len. f_equal. now apply Permutation_length, filter_perm.
Qed.

Lemma len_three_way {A : Type} (key : A -> Z) (k : Z) (l : list A) :
  len l = len (filter (fun x => k <? key x) l)
          + len (filter (fun x => key x <? k) l)
          + len (filter (fun x => key x =? k) l).
Proof.
  induction l as [|x l IH]; [reflexivity|].
  cbn [filter]. rewrite len_cons, IH.
  destruct (Z.ltb_spec k (key x)), (Z.ltb_spec (key x) k), (Z.eqb_spec (key x) k);
    rewrite ?len_cons; lia.
Qed.

Lemma len_filter_key_nodup {A : Type} (key : A -> Z) (k : Z) (l : list A) :
  NoDup (map key l) -> len (filter (fun x => key x =? k) l) <= 1.
Proof.
  induction l as [|x l IH]; cbn [map filter]; intros Hnd.
  - unfold len. cbn. lia.
  - inversion Hnd as [|? ? Hx Hl]; subst. specialize (IH Hl).
    destruct (Z.eqb_spec (key x) k) as [E|E]; [|exact IH].
    rewrite len_cons.
    replace (filter (fun x0 => key x0 =? k) l) with (@nil A);
      [change (len (@nil A)) with 0; lia|].
    symmetry. clear IH Hl Hnd. induction l as [|y l IH']; [reflexivity|].
    cbn [filter map In] in *. destruct (Z.eqb_spec (key y) k) as [E'|E'].
    + exfalso. apply Hx. left. congruence.
    + apply IH'. tauto.
Qed.

(** X19. With total_draws >= 1 and the deviations taken as exact quotients
    (so that distinct counts have distinct deviations, which doubles do not
    guarantee for very large numbers), a frequency table of at least 20 rows
    whose counts are pairwise distinct gives disjoint hot and cold lists: no
    row is in both. *)
Theorem hot_cold_disjoint_on_distinct_counts (freq_df : list FreqRow)
    (total_draws : Z) (p : string) :
  1 <= total_draws ->
  NoDup (map frequency freq_df) ->
  (20 <= List.length freq_df)%nat ->
  forall r, In r (hot (find_hot_cold_numbers freq_df total_draws p)) ->
            ~ In r (cold (find_hot_cold_numbers freq_df total_draws p)).
Proof.
  intros Ht Hnd Hlen r Hhot Hcold.
  cbn [find_hot_cold_numbers hot cold] in Hhot, Hcold.
  pose proof (scored_ranking_by_frequency false freq_df total_draws Ht) as Hd.
  pose proof (scored_ranking_by_frequency true freq_df total_draws Ht) as Ha.
  cbv beta iota in Hd, Ha.
  pose proof (head_rank_count (fun x => frequency (base x)) _ r 10 Hd Hhot) as H1.
  assert (Ha' : StronglySorted
                  (fun a b => - frequency (base b) <= - frequency (base a))
                  (sort_values Qle_bool deviation true
                     (add_columns freq_df total_draws))).
  { eapply strongly_sorted_impl_in; [|exact Ha]. cbv beta. intros; lia. }
  pose proof (head_rank_count (fun x => - frequency (base x)) _ r 10 Ha' Hcold) as H2.
  rewrite <- (len_filter_perm _ _ _
                (sort_values_perm Qle_bool deviation false
                   (add_columns freq_df total_draws))) in H1.
  rewrite <- (len_filter_perm _ _ _
                (sort_values_perm Qle_bool deviation true
                   (add_columns freq_df total_draws))) in H2.
  rewrite (filter_ext _ (fun x => frequency (base x) <? frequency (base r))) in H2.
  2:{ intros x. destruct (Z.ltb_spec (- frequency (base r)) (- frequency (base x)));
        symmetry; [apply Z.ltb_lt|apply Z.ltb_ge]; lia. }
  pose proof (len_three_way (fun x => frequency (base x)) (frequency (base r))
                (add_columns freq_df total_draws)) as H3.
  assert (H4 : len (filter (fun x => frequency (base x) =? frequency (base r))
                           (add_columns freq_df total_draws)) <= 1).
  { apply len_filter_key_nodup.
    rewrite <- (map_map base frequency), add_columns_base. exact Hnd. }
  unfold len at 1 in H3. rewrite add_columns_length in H3. lia.
Qed.

Lemma hot_cold_disjoint_on_distinct_counts_witness :
  1 <= 100
  /\ NoDup (map frequency
              (map (fun n => mkFreqRow (Z.of_nat n) (Z.of_nat n)) (seq 1 20)))
  /\ (20 <= List.length
              (map (fun n => mkFreqRow (Z.of_nat n) (Z.of_nat n)) (seq 1 20)))%nat
  /\ forall r,
       In r (hot (find_hot_cold_numbers
                    (map (fun n => mkFreqRow (Z.of_nat n) (Z.of_nat n)) (seq 1 20))
                    100 "all time")) ->
       ~ In r (cold (find_hot_cold_numbers
                       (map (fun n => mkFreqRow (Z.of_nat n) (Z.of_nat n)) (seq 1 20))
                       100 "all time")).
Proof.
  assert (Ht : 1 <= 100) by lia.
  assert (Hnd : NoDup (map frequency
                         (map (fun n => mkFreqRow (Z.of_nat n) (Z.of_nat n))
                              (seq 1 20)))).
  { rewrite map_map. cbn [frequency].
    apply NoDup_map_NoDup_ForallPairs; [|apply seq_NoDup].
    intros a b _ _ E. lia. }
  assert (Hlen : (20 <= List.length
                          (map (fun n => mkFreqRow (Z.of_nat n) (Z.of_nat n))
                               (seq 1 20)))%nat)
    by (rewrite length_map, length_seq; lia).
  split; [exact Ht|]. split; [exact Hnd|]. split; [exact Hlen|].
  exact (hot_cold_disjoint_on_distinct_counts _ 100 "all time" Ht Hnd Hlen).
Defined.

(** ** The rows saved to CSV *)

Lemma append_prefix_injective (p a b : string) :
  (p ++ a = p ++ b)%string -> a = b.
Proof.
  induction p as [|c p IH]; cbn [String.append]; intros E; [exact E|].
  injection E as E. now apply IH.
Qed.

Lemma number_column_injective (i j : Z) :
  number_column i = number_column j -> i = j.
Proof.
  unfold number_column. intros E.
  apply append_prefix_injective, py_str_int_injective in E. lia.
Qed.

Lemma dict_set_fresh {V : Type} (key : string) (v : V) (d : list (string * V)) :
  ~ In key (map fst d) -> dict_set key v d = d ++ [(key, v)].
Proof.
  induction d as [|[k x] t IH]; cbn [dict_set map fst In app]; intros H;
    [reflexivity|].
  destruct (String.eqb key k) eqn:E.
  - apply String.eqb_eq in E. subst. tauto.
  - rewrite IH; tauto.
Qed.

Lemma dict_get_app_fresh {V : Type} (key : string) (d d' : list (string * V)) :
  ~ In key (map fst d) -> dict_get key (d ++ d') = dict_get key d'.
Proof.
  induction d as [|[k x] t IH]; cbn [dict_get map fst In app]; intros H;
    [reflexivity|].
  destruct (String.eqb key k) eqn:E.
  - apply String.eqb_eq in E. subst. tauto.
  - apply IH. tauto.
Qed.

Lemma enumerate_from_keys {A : Type} (i j : Z) (l : list A) :
  In j (map fst (enumerate_from i l)) <-> i <= j < i + len l.
Proof.
  revert i. induction l as [|x l IH]; intros i; cbn [enumerate_from map fst In].
  - unfold len. cbn. lia.
  - rewrite IH, len_cons. assert (0 <= len l) by (unfold len; lia). lia.
Qed.

Lemma fill_row_spec (nums : list Z) (i : Z) (row : list (string * CsvValue)) :
  (forall j, i <= j -> ~ In (number_column j) (map fst row)) ->
  fold_left (fun row p => dict_set (number_column (fst p)) (CsvInt (snd p)) row)
            (enumerate_from i nums) row =
  row ++ map (fun p => (number_column (fst p), CsvInt (snd p)))
             (enumerate_from i nums).
Proof.
  revert i row. induction nums as [|num nums IH]; intros i row H;
    cbn [enumerate_from fold_left map fst snd].
  - now rewrite app_nil_r.
  - rewrite dict_set_fresh by (apply H; lia).
    rewrite IH.
    + rewrite <- app_assoc. reflexivity.
    + intros j Hj. rewrite map_app, in_app_iff. cbn [map fst In].
      intros [Hin|[E|[]]].
      * apply (H j); [lia|exact Hin].
      * apply number_column_injective in E. lia.
Qed.

Lemma enumerate_columns_nodup (l : list Z) (i : Z) :
  NoDup (map (fun p : Z * Z => number_column (fst p)) (enumerate_from i l)).
Proof.
  revert i. induction l as [|x l IH]; intros i; cbn [enumerate_from map fst];
    constructor; [|apply IH].
  intros Hin. apply in_map_iff in Hin as [q [E Hq]].
  apply number_column_injective in E.
  assert (Hk : In (fst q) (map fst (enumerate_from (i + 1) l)))
    by now apply in_map.
  apply enumerate_from_keys in Hk. lia.
Qed.

Lemma enumerate_columns_get (l : list Z) (k : Z) (i : nat) (num : Z) :
  nth_error l i = Some num ->
  dict_get (number_column (k + Z.of_nat i))
           (map (fun p : Z * Z => (number_column (fst p), CsvInt (snd p)))
                (enumerate_from k l)) = Some (CsvInt num).
Proof.
  revert k i. induction l as [|x l IH]; intros k i Hi; [now destruct i|].
  cbn [enumerate_from map fst snd dict_get]. destruct i as [|i].
  - cbn [nth_error] in Hi. injection Hi as ->.
    replace (k + Z.of_nat 0) with k by lia. now rewrite String.eqb_refl.
  - cbn [nth_error] in Hi.
    replace (String.eqb (number_column (k + Z.of_nat (S i))) (number_column k))
      with false.
    + replace (k + Z.of_nat (S i)) with ((k + 1) + Z.of_nat i) by lia.
      now apply IH.
    + symmetry. apply String.eqb_neq. intros E.
      apply number_column_injective in E. lia.
Qed.

(** X20. The row that [save_to_csv] builds for a draw holds the date, the
    year and then every drawn number under its own column number_1,
    number_2, ... in draw order: the column names are pairwise distinct, so
    no number overwrites another, and the i-th number is read back from
    column number_{i+1}. *)
Theorem csv_row_keeps_every_number (draw : Draw) :
  csv_row draw =
    [("date", CsvStr (date draw)); ("year", CsvInt (year draw))]
    ++ map (fun p => (number_column (fst p), CsvInt (snd p)))
           (enumerate_from 0 (numbers draw))
  /\ NoDup (map fst (csv_row draw))
  /\ dict_get "date" (csv_row draw) = Some (CsvStr (date draw))
  /\ dict_get "year" (csv_row draw) = Some (CsvInt (year draw))
  /\ forall i num, nth_error (numbers draw) i = Some num ->
       dict_get (number_column (Z.of_nat i)) (csv_row draw) = Some (CsvInt num).
Proof.
  assert (Hfresh : forall j, ~ In (number_column j) ["date"; "year"]).
  { intros j [E|[E|[]]]; unfold number_column in E; cbn [String.append] in E;
      discriminate E. }
  assert (Hrow : csv_row draw =
                 [("date", CsvStr (date draw)); ("year", CsvInt (year draw))]
                 ++ map (fun p => (number_column (fst p), CsvInt (snd p)))
                        (enumerate_from 0 (numbers draw))).
  { unfold csv_row. apply fill_row_spec. intros j _. apply Hfresh. }
  split; [exact Hrow|]. rewrite Hrow. split; [|split; [reflexivity|split; [reflexivity|]]].
  - rewrite map_app, map_map. cbn [map fst app].
    constructor.
    { intros [E|Hin]; [discriminate E|].
      apply in_map_iff in Hin as [q [E _]]. apply (Hfresh (fst q)). now left. }
    constructor.
    { intros Hin. apply in_map_iff in Hin as [q [E _]].
      apply (Hfresh (fst q)). right. now left. }
    apply enumerate_columns_nodup.
  - intros i num Hi. cbn [app dict_get].
    assert (E1 : String.eqb (number_column (Z.of_nat i)) "date" = false).
    { apply String.eqb_neq. intros E. apply (Hfresh (Z.of_nat i)). now left. }
    assert (E2 : String.eqb (number_column (Z.of_nat i)) "year" = false).
    { apply String.eqb_neq. intros E. apply (Hfresh (Z.of_nat i)). right. now left. }
    rewrite E1, E2.
    exact (enumerate_columns_get (numbers draw) 0 i num Hi).
Qed.
